(** * react-hook-form-discriminated: a shallow embedding

    The package has three runtime entry points:
    - [useFormTypeguard]                 (the reactive discriminant matcher),
    - [createDiscriminatedFormCtx]       (the variant accessor factory),
    - [createDiscriminatedSubmitHandler] (the discriminant dispatcher).

    They are a few lines each and lean on the JavaScript run time and on
    three dependencies (es-toolkit, react, react-hook-form).  The run time
    and the functions of es-toolkit and react are embedded first, each
    with the behaviour it has in the library the source imports it from;
    of react-hook-form, the state container, only the interface the
    specification gives is embedded.  The three entry points follow, line
    by line, and then the facts about them. *)

From Stdlib Require Import ZArith Ascii String List Bool Lia.
From Stdlib Require Import DecimalString DecimalNat DecimalFacts.
From stdpp Require Import gmap strings list fin_maps.

Local Open Scope string_scope.
Local Open Scope list_scope.

(** ** JavaScript values *)

Module JS.

(** A value is a primitive, an array or a plain object.  Arrays and objects
    carry the reference [ref] they were allocated at: two objects are the
    same object exactly when their references agree, whatever they hold.
    Numbers are the integers; an object's property list is in the order
    [Object.keys] enumerates it. *)
Unset Elimination Schemes.
Inductive value : Type :=
| VUndefined
| VNull
| VBool (b : bool)
| VNumber (n : Z)
| VString (s : string)
| VArray (ref : nat) (elems : list value)
| VObject (ref : nat) (props : list (string * value)).
Set Elimination Schemes.

Definition props_t : Type := list (string * value).

Section value_induction.
Variable P : value -> Prop.
Hypothesis Hundef : P VUndefined.
Hypothesis Hnull : P VNull.
Hypothesis Hbool : forall b, P (VBool b).
Hypothesis Hnum : forall n, P (VNumber n).
Hypothesis Hstr : forall s, P (VString s).
Hypothesis Harr : forall ref elems, Forall P elems -> P (VArray ref elems).
Hypothesis Hobj : forall ref props,
    Forall (fun kv => P (snd kv)) props -> P (VObject ref props).

Fixpoint value_ind (v : value) : P v :=
  match v with
  | VUndefined => Hundef
  | VNull => Hnull
  | VBool b => Hbool b
  | VNumber n => Hnum n
  | VString s => Hstr s
  | VArray ref elems =>
      Harr ref elems
        ((fix all (l : list value) : Forall P l :=
            match l with
            | [] => @List.Forall_nil _ P
            | x :: l' => @List.Forall_cons _ P x l' (value_ind x) (all l')
            end) elems)
  | VObject ref props =>
      Hobj ref props
        ((fix all (l : props_t) : Forall (fun kv => P (snd kv)) l :=
            match l with
            | [] => @List.Forall_nil _ _
            | kv :: l' =>
                @List.Forall_cons _ _ kv l' (value_ind (snd kv)) (all l')
            end) props)
  end.
End value_induction.

(** [String(n)] for an array index. *)
Definition indexKey (i : nat) : string :=
  NilEmpty.string_of_uint (Nat.to_uint i).

(** [String(n)] for an integer of magnitude below 10^21; beyond that
    JavaScript writes an exponent, which is not modelled. *)
Definition numberToString (n : Z) : string :=
  NilZero.string_of_int (Z.to_int n).

(** The index properties of an array, [("0", e0); ("1", e1); ...]. *)
Fixpoint indexedFrom (i : nat) (elems : list value) : props_t :=
  match elems with
  | [] => []
  | e :: elems' => (indexKey i, e) :: indexedFrom (S i) elems'
  end.

(** The own enumerable properties of a value, in [Object.keys] order. *)
Definition ownProps (v : value) : props_t :=
  match v with
  | VObject _ props => props
  | VArray _ elems => indexedFrom 0 elems
  | _ => []
  end.

Fixpoint lookupProp (key : string) (props : props_t) : option value :=
  match props with
  | [] => None
  | (k, v) :: props' => if String.eqb key k then Some v else lookupProp key props'
  end.

(** Property read [object[key]].  An absent property reads [undefined];
    an array also answers [length].  Primitives are read as having no
    properties. *)
Definition getProp (object : value) (key : string) : value :=
  match lookupProp key (ownProps object) with
  | Some v => v
  | None =>
      match object with
      | VArray _ elems =>
          if String.eqb key "length" then VNumber (Z.of_nat (length elems))
          else VUndefined
      | _ => VUndefined
      end
  end.

(** Property write [object[key] = v] on a property list: an existing
    property keeps its place, a new one goes last. *)
Fixpoint setProp (key : string) (v : value) (props : props_t) : props_t :=
  match props with
  | [] => [(key, v)]
  | (k, x) :: props' =>
      if String.eqb key k then (k, v) :: props'
      else (k, x) :: setProp key v props'
  end.

(** [delete object[key]]. *)
Fixpoint deleteProp (key : string) (props : props_t) : props_t :=
  match props with
  | [] => []
  | (k, x) :: props' =>
      if String.eqb key k then deleteProp key props'
      else (k, x) :: deleteProp key props'
  end.

(** [Object.assign(target, source)]. *)
Definition Object_assign (target source : props_t) : props_t :=
  fold_left (fun acc kv => setProp (fst kv) (snd kv) acc) source target.

(** [Object.keys]. *)
Definition Object_keys (props : props_t) : list string := map fst props.

(** Strict equality [a === b]: primitives by value, arrays and objects by
    reference. *)
Definition strictEquals (a b : value) : bool :=
  match a, b with
  | VUndefined, VUndefined => true
  | VNull, VNull => true
  | VBool x, VBool y => Bool.eqb x y
  | VNumber x, VNumber y => Z.eqb x y
  | VString x, VString y => String.eqb x y
  | VArray r _, VArray r' _ => Nat.eqb r r'
  | VObject r _, VObject r' _ => Nat.eqb r r'
  | _, _ => false
  end.


(** The same value with every reference forgotten. *)
Fixpoint erase (v : value) : value :=
  match v with
  | VArray _ elems => VArray 0 (map erase elems)
  | VObject _ props =>
      VObject 0 (map (fun kv => (fst kv, erase (snd kv))) props)
  | _ => v
  end.

Definition eraseProps (props : props_t) : props_t :=
  map (fun kv => (fst kv, erase (snd kv))) props.

(** [array.join(',')] over the texts of the elements. *)
Fixpoint joinComma (items : list string) : string :=
  match items with
  | [] => ""
  | [item] => item
  | item :: items' => String.append item (String.append "," (joinComma items'))
  end.

(** [String(v)]. *)
Fixpoint ToString (v : value) : string :=
  match v with
  | VUndefined => "undefined"
  | VNull => "null"
  | VBool true => "true"
  | VBool false => "false"
  | VNumber n => numberToString n
  | VString s => s
  | VArray _ elems =>
      joinComma
        (map (fun x => match x with
                       | VUndefined | VNull => ""
                       | _ => ToString x
                       end) elems)
  | VObject _ _ => "[object Object]"
  end.

End JS.

Import JS.

(** ** es-toolkit *)

(** The functions the package imports from es-toolkit ([flattenObject],
    [omit]) and from es-toolkit/compat ([get]).  They are code of the
    dependency, not of the package; each definition follows the library's
    function of the same name, statement by statement.  [omit] works on
    the store and is defined with the dispatcher. *)
Module EsToolkit.

Definition isPlainObject (v : value) : bool :=
  match v with VObject _ _ => true | _ => false end.

Definition isArray (v : value) : bool :=
  match v with VArray _ _ => true | _ => false end.

(** [prefix ? `${prefix}${delimiter}${key}` : key], with the default
    delimiter. *)
Definition prefixedKey (prefix key : string) : string :=
  if String.eqb prefix "" then key else prefix +:+ "." +:+ key.

(** One turn of the loop of [flattenObjectImpl]; [nested] is the flattening
    of [value] under [key].  A plain object with at least one key and any
    array are flattened into the result, every other value is stored under
    its key. *)
Definition visit (key : string) (value : JS.value) (nested result : props_t)
  : props_t :=
  if isPlainObject value && negb (Nat.eqb (length (Object_keys (ownProps value))) 0)
  then Object_assign result nested
  else if isArray value
  then Object_assign result nested
  else setProp key value result.

(** [flattenObjectImpl(object, prefix, '.')] of es-toolkit: a loop over
    [Object.keys(object)] that fills a fresh result object. *)
Fixpoint flattenObjectImpl (object : value) (prefix : string) {struct object}
  : props_t :=
  match object with
  | VObject _ props =>
      (fix loop (rest : props_t) (result : props_t) {struct rest} : props_t :=
         match rest with
         | [] => result
         | (key, value) :: rest' =>
             loop rest'
               (visit (prefixedKey prefix key) value
                  (flattenObjectImpl value (prefixedKey prefix key)) result)
         end) props []
  | VArray _ elems =>
      (fix loop (i : nat) (rest : list value) (result : props_t) {struct rest}
         : props_t :=
         match rest with
         | [] => result
         | value :: rest' =>
             loop (S i) rest'
               (visit (prefixedKey prefix (indexKey i)) value
                  (flattenObjectImpl value (prefixedKey prefix (indexKey i)))
                  result)
         end) 0%nat elems []
  | _ => []
  end.

(** The body of the loop of [flattenObjectImpl] for the property [kv]. *)
Definition flattenStep (prefix : string) (result : props_t)
    (kv : string * value) : props_t :=
  visit (prefixedKey prefix (fst kv)) (snd kv)
        (flattenObjectImpl (snd kv) (prefixedKey prefix (fst kv))) result.

(** [flattenObject(object)]. *)
Definition flattenObject (object : value) : props_t :=
  flattenObjectImpl object "".

(** [isUnsafeProperty(key)]. *)
Definition isUnsafeProperty (key : string) : bool := String.eqb key "__proto__".

Fixpoint hasChar (c : ascii) (s : string) : bool :=
  match s with
  | EmptyString => false
  | String c' s' => Ascii.eqb c c' || hasChar c s'
  end.

(** [isDeepKey(key)]: the key holds a dot or a bracket. *)
Definition isDeepKey (key : string) : bool :=
  hasChar "." key || hasChar "[" key || hasChar "]" key.

Fixpoint split (sep : ascii) (s : string) : list string :=
  match s with
  | EmptyString => [EmptyString]
  | String c s' =>
      if Ascii.eqb c sep then EmptyString :: split sep s'
      else match split sep s' with
           | seg :: segs => String c seg :: segs
           | [] => [String c EmptyString]
           end
  end.

(** [toPath(deepKey)] on dotted paths: the segments between the dots.
    This is the library's [toPath] on every path without brackets whose
    segments are not empty; its bracket and quote syntax is not modelled. *)
Definition toPath (deepKey : string) : list string := split "." deepKey.

Definition isNullish (v : value) : bool :=
  match v with VUndefined | VNull => true | _ => false end.

(** The loop of [getWithPath]: a nullish [current] or an unsafe segment
    ends the walk with the default value, [undefined]. *)
Fixpoint walkPath (current : value) (path : list string) : value :=
  match path with
  | [] => current
  | key :: path' =>
      if isNullish current then VUndefined
      else if isUnsafeProperty key then VUndefined
      else walkPath (getProp current key) path'
  end.

Definition getWithPath (object : value) (path : list string) : value :=
  match path with
  | [] => VUndefined
  | _ => walkPath object path
  end.

(** [get(object, path)] of es-toolkit/compat for a string path and no
    default value: the property named by the whole string if there is one,
    else the walk along the dotted path. *)
Definition get (object : value) (path : string) : value :=
  if isNullish object then VUndefined
  else if isUnsafeProperty path then VUndefined
  else match getProp object path with
       | VUndefined =>
           if isDeepKey path then getWithPath object (toPath path)
           else VUndefined
       | result => result
       end.

End EsToolkit.

(** ** JSON.stringify *)

Module JSON.

Definition char (n : nat) : string := String (ascii_of_nat n) EmptyString.

Definition hexDigit (n : nat) : string :=
  match n with
  | 10 => "a" | 11 => "b" | 12 => "c" | 13 => "d" | 14 => "e" | 15 => "f"
  | _ => indexKey n
  end.

(** One character of a quoted JSON string. *)
Definition escapeChar (c : ascii) : string :=
  let n := nat_of_ascii c in
  if Nat.eqb n 34 then char 92 +:+ char 34
  else if Nat.eqb n 92 then char 92 +:+ char 92
  else if Nat.eqb n 8 then char 92 +:+ "b"
  else if Nat.eqb n 9 then char 92 +:+ "t"
  else if Nat.eqb n 10 then char 92 +:+ "n"
  else if Nat.eqb n 12 then char 92 +:+ "f"
  else if Nat.eqb n 13 then char 92 +:+ "r"
  else if Nat.ltb n 32
  then char 92 +:+ "u00" +:+ hexDigit (n / 16) +:+ hexDigit (n mod 16)
  else String c EmptyString.

Fixpoint escape (s : string) : string :=
  match s with
  | EmptyString => EmptyString
  | String c s' => escapeChar c +:+ escape s'
  end.

Definition quote (s : string) : string := char 34 +:+ escape s +:+ char 34.

Fixpoint commaJoin (items : list string) : string :=
  match items with
  | [] => ""
  | [item] => item
  | item :: items' => item +:+ "," +:+ commaJoin items'
  end.

(** The text [JSON.stringify] writes for a value.  A property whose value is
    [undefined] is left out of its object; an [undefined] array element is
    written [null]. *)
Fixpoint serialize (v : value) : string :=
  match v with
  | VUndefined => "null"
  | VNull => "null"
  | VBool true => "true"
  | VBool false => "false"
  | VNumber n => numberToString n
  | VString s => quote s
  | VArray _ elems => "[" +:+ commaJoin (map serialize elems) +:+ "]"
  | VObject _ props =>
      "{" +:+
      commaJoin
        (flat_map
           (fun kv =>
              match snd kv with
              | VUndefined => []
              | _ => [quote (fst kv) +:+ ":" +:+ serialize (snd kv)]
              end) props)
      +:+ "}"
  end.

(** [JSON.stringify(v)]: [undefined] for [undefined], a string otherwise. *)
Definition stringify (v : value) : value :=
  match v with
  | VUndefined => VUndefined
  | _ => VString (serialize v)
  end.

End JSON.

(** ** React *)

Module React.

(** [Object.is] on the values of the model (no NaN, no signed zero). *)
Definition Object_is (a b : value) : bool := strictEquals a b.

Fixpoint areHookInputsEqual (nextDeps prevDeps : list value) : bool :=
  match nextDeps, prevDeps with
  | [], [] => true
  | a :: nextDeps', b :: prevDeps' =>
      Object_is a b && areHookInputsEqual nextDeps' prevDeps'
  | _, _ => false
  end.

(** The cell [useMemo] keeps between two evaluations of a component: the
    value of the last run of the factory and the dependencies it ran for. *)
Definition memoCell (A : Type) : Type := option (A * list value).

(** [useMemo(factory, deps)].  The boolean tells whether the factory ran:
    the value is then a newly allocated one, otherwise it is the very
    object of the evaluation before. *)
Definition useMemo {A : Type} (factory : unit -> A) (deps : list value)
    (cell : memoCell A) : A * bool * memoCell A :=
  match cell with
  | Some (cached, prevDeps) =>
      if areHookInputsEqual deps prevDeps then (cached, false, cell)
      else let v := factory tt in (v, true, Some (v, deps))
  | None => let v := factory tt in (v, true, Some (v, deps))
  end.

End React.

(** ** react-hook-form *)

Module ReactHookForm.

(** The one shared state container: it holds the current field values. *)
Record Control : Type := { _formValues : value }.

(** The object [useForm] returns and [FormProvider] shares. *)
Record Handle : Type := { handleRef : nat; control : Control }.

(** [UseFormReturn<TFieldValues>]: a handle at a static type.  The type
    argument exists for the type checker only. *)
Record UseFormReturn (TFieldValues : Type) : Type :=
  Typed { untyped : Handle }.
Arguments Typed {TFieldValues} _.
Arguments untyped {TFieldValues} _.

(** [useFormContext<T>()]: the handle found in the enclosing provider,
    [context], at the type the caller asks for. *)
Definition useFormContext (T : Type) (context : Handle) : UseFormReturn T :=
  Typed context.

(** Modelled from the spec: the container's [getFieldValue(path)], the
    value at a dotted field path of the record, [undefined] where the
    record has no such field. *)
Definition getFieldValue (c : Control) (path : string) : value :=
  fold_left getProp (EsToolkit.split "." path) (_formValues c).

(** [useWatch({ compute, control, name })] for an array of names: the
    values at the names, in order, handed to [compute]. *)
Definition useWatch {A : Type} (compute : list value -> A) (c : Control)
    (name : list string) : A :=
  compute (map (getFieldValue c) name).

(** Modelled from the spec: the container's [subscribe(paths, onChange)]
    fires [onChange] whenever one of [paths] changes.  A change is reported
    under the name [changed] of the field that was set, and it changes the
    paths below that field and above it: as react-hook-form does for a
    subscription without [exact], the container takes a subscribed path
    to have changed when [changed] is a prefix of the path or the path is
    a prefix of [changed]. *)
Definition fires (paths : list string) (changed : string) : bool :=
  existsb (fun path =>
             negb (String.eqb path "")
             && (String.prefix changed path || String.prefix path changed))
          paths.

End ReactHookForm.

Import EsToolkit ReactHookForm.

(** ** useFormTypeguard *)

Module Matcher.

(** [array.every((item, index) => ...)]. *)
Fixpoint everyFrom {A : Type} (f : A -> nat -> bool) (index : nat) (l : list A)
  : bool :=
  match l with
  | [] => true
  | x :: l' => f x index && everyFrom f (S index) l'
  end.

Definition every {A : Type} (f : A -> nat -> bool) (l : list A) : bool :=
  everyFrom f 0 l.

(** The factory of the memo:
    [Object.keys(flattenObject(discriminant))]. *)
Definition discriminantKeysOf (discriminant : value) : list string :=
  Object_keys (flattenObject discriminant).

(** The dependency list of the memo: [[JSON.stringify(discriminant)]]. *)
Definition memoDeps (discriminant : value) : list value :=
  [JSON.stringify discriminant].

(** The [compute] callback:
    [discriminantKeys.every((key, index) =>
       values[index] === get(discriminant, key))]. *)
Definition compute (discriminant : value) (discriminantKeys : list string)
    (values : list value) : bool :=
  every (fun key index =>
           strictEquals (nth index values VUndefined) (get discriminant key))
        discriminantKeys.

(** [useFormTypeguard(form, discriminant)] on a first evaluation. *)
Definition useFormTypeguard {T : Type} (form : UseFormReturn T)
    (discriminant : value) : bool :=
  let discriminantKeys := discriminantKeysOf discriminant in
  useWatch (compute discriminant discriminantKeys)
           (control (untyped form)) discriminantKeys.

(** What one use of the hook keeps from evaluation to evaluation: the memo
    cell, the paths of its live subscription, the number of [subscribe]
    calls and of [compute] calls made so far, and the boolean it shows. *)
Record matcher : Type := {
  memo : React.memoCell (list string);
  names : list string;
  subscribeCalls : nat;
  computeCalls : nat;
  isMatching : bool
}.

(** One evaluation of [useFormTypeguard(form, discriminant)].  [useWatch]
    subscribes to [name] when it first runs and again whenever [name] is a
    new array.  The boolean is computed when the hook first runs; it is
    the state of [useWatch], which a new subscription leaves as it is
    until the container reports a change. *)
Definition evaluate {T : Type} (form : UseFormReturn T) (discriminant : value)
    (before : option matcher) : matcher :=
  let cell := match before with Some m => memo m | None => None end in
  let '(discriminantKeys, newArray, cell') :=
    React.useMemo (fun _ => discriminantKeysOf discriminant)
                  (memoDeps discriminant) cell in
  match before with
  | Some m =>
      if newArray
      then {| memo := cell';
              names := discriminantKeys;
              subscribeCalls := S (subscribeCalls m);
              computeCalls := computeCalls m;
              isMatching := isMatching m |}
      else {| memo := cell';
              names := names m;
              subscribeCalls := subscribeCalls m;
              computeCalls := computeCalls m;
              isMatching := isMatching m |}
  | None =>
      {| memo := cell';
         names := discriminantKeys;
         subscribeCalls := 1;
         computeCalls := 1;
         isMatching :=
           useWatch (compute discriminant discriminantKeys)
                    (control (untyped form)) discriminantKeys |}
  end.

(** The container reports that the field at [changed] changed; [form] holds
    the values after the change and [discriminant] is the pattern of the
    last evaluation. *)
Definition notify {T : Type} (changed : string) (form : UseFormReturn T)
    (discriminant : value) (m : matcher) : matcher :=
  if fires (names m) changed
  then {| memo := memo m;
          names := names m;
          subscribeCalls := subscribeCalls m;
          computeCalls := S (computeCalls m);
          isMatching :=
            useWatch (compute discriminant (names m))
                     (control (untyped form)) (names m) |}
  else m.

End Matcher.

(** ** createDiscriminatedFormCtx *)

Module FormCtx.

Section createDiscriminatedFormCtx.
(** The type arguments: the union of the form values, and the variant of
    the union each discriminant value selects. *)
Variable TFormValues : Type.
Variable DiscriminantValue : Type.
Variable FormValuesByDiscriminant : DiscriminantValue -> Type.

(** The type the returned hook gives its handle:
    [T extends DiscriminantValue ? FormValuesByDiscriminant[T] : TFormValues]. *)
Definition narrowed (T : option DiscriminantValue) : Type :=
  match T with
  | Some t => FormValuesByDiscriminant t
  | None => TFormValues
  end.

(** [createDiscriminatedFormCtx<TFormValues, TDiscriminantKey>()]: the hook
    [<T>() => useFormContext<...>()].  [T] is a type argument; [context]
    is the handle of the enclosing provider. *)
Definition createDiscriminatedFormCtx (_ : unit)
  : forall T : option DiscriminantValue, Handle -> UseFormReturn (narrowed T) :=
  fun T context => useFormContext (narrowed T) context.
End createDiscriminatedFormCtx.

End FormCtx.

(** ** createDiscriminatedSubmitHandler *)

Module Dispatcher.

(** Submitted values are an object the handlers may keep and write to, so
    the dispatcher runs over a store: [heap] maps the reference of an
    object to its property table.  [calls] is the log that probe handlers
    write when they are invoked. *)
Record world : Type := {
  heap : gmap nat props_t;
  calls : list (string * nat)
}.

(** The property table behind a reference. *)
Definition tableOf (w : world) (obj : nat) : props_t :=
  default [] (heap w !! obj).

(** [obj[key]] for an object of the store. *)
Definition readProp (w : world) (obj : nat) (key : string) : value :=
  getProp (VObject obj (tableOf w obj)) key.

(** [omit(obj, keys)] of es-toolkit: [const result = { ...obj }], then
    [delete result[key]] for each key; the argument is not written. *)
Definition omit (obj : nat) (keys : list string) (w : world) : nat * world :=
  let result := fresh (dom (heap w)) in
  let copied := <[result := tableOf w obj]> (heap w) in
  let deleted :=
    fold_left (fun h key => alter (deleteProp key) result h) keys copied in
  (result, {| heap := deleted; calls := calls w |}).

Section createDiscriminatedSubmitHandler.
(** What a handler gives back (a value or a promise). *)
Variable R : Type.

(** A submit handler is called with the reference of its argument and
    may read and write the store. *)
Definition SubmitHandler : Type := nat -> world -> R * world.

(** How a call of the returned function ends: with what the handler
    returned, or with the [Error] the dispatcher threw. *)
Inductive completion : Type :=
| Returned (result : R)
| Thrown (message : string).

(** [createDiscriminatedSubmitHandler(form, discriminantKey, handlers)].
    The handler table is the map of its own properties, from property
    keys to handlers; the members an object literal inherits from
    [Object.prototype] ([toString], [constructor], ...) are not part of
    it. *)
Definition createDiscriminatedSubmitHandler {T : Type}
    (form : UseFormReturn T) (discriminantKey : string)
    (handlers : gmap string SubmitHandler)
  : nat -> world -> completion * world :=
  fun values w =>
    let discriminantValue := readProp w values discriminantKey in
    match handlers !! ToString discriminantValue with
    | None =>
        (Thrown ("No handler found for discriminant value: "
                 +:+ ToString discriminantValue), w)
    | Some handler =>
        let '(payload, w') := omit values [discriminantKey] w in
        let '(result, w'') := handler payload w' in
        (Returned result, w'')
    end.

(** A handler that only records its invocation and returns [result]. *)
Definition probe (name : string) (result : R) : SubmitHandler :=
  fun payload w =>
    (result, {| heap := heap w; calls := calls w ++ [(name, payload)] |}).
End createDiscriminatedSubmitHandler.

Arguments Returned {R} _.
Arguments Thrown {R} _.

End Dispatcher.

(** ** The specification's vocabulary *)

Module Spec.

(** A value the flattening goes into: a plain mapping with at least one
    key, or an array. *)
Definition descends (v : value) : bool :=
  (isPlainObject v && negb (Nat.eqb (length (Object_keys (ownProps v))) 0))
  || isArray v.

(** [reaches object path v]: descending from [object] along the keys of
    [path], through values the flattening goes into, ends at the leaf [v]. *)
Inductive reaches : value -> list string -> value -> Prop :=
| reaches_leaf object key v :
    In (key, v) (ownProps object) ->
    descends v = false ->
    reaches object [key] v
| reaches_step object key child path v :
    In (key, child) (ownProps object) ->
    descends child = true ->
    reaches child path v ->
    reaches object (key :: path) v.

(** The dotted path of a list of keys below [prefix]. *)
Definition joinPath (prefix : string) (path : list string) : string :=
  fold_left prefixedKey path prefix.

(** The flattening as the specification words it: descend through plain
    mappings only; every other value, an array included, is a leaf. *)
Fixpoint flatten (pattern : value) (prefix : string) {struct pattern}
  : props_t :=
  match pattern with
  | VObject _ props =>
      (fix each (rest : props_t) : props_t :=
         match rest with
         | [] => []
         | (key, v) :: rest' =>
             match v with
             | VObject _ _ => flatten v (prefixedKey prefix key)
             | _ => [(prefixedKey prefix key, v)]
             end ++ each rest'
         end) props
  | _ => []
  end.



(** A key that is one segment of a dotted path: not empty, without dot or
    bracket, and not [__proto__]. *)
Definition segmentKey (key : string) : bool :=
  negb (String.eqb key "") && negb (isDeepKey key)
  && negb (isUnsafeProperty key).

Fixpoint distinctKeys (keys : list string) : bool :=
  match keys with
  | [] => true
  | k :: keys' => negb (existsb (String.eqb k) keys') && distinctKeys keys'
  end.

(** A pattern written as a nested object literal: in every object the keys
    are distinct segments. *)
Fixpoint plainPattern (v : value) : bool :=
  match v with
  | VObject _ props =>
      distinctKeys (map fst props)
      && (fix each (rest : props_t) : bool :=
            match rest with
            | [] => true
            | (key, x) :: rest' => segmentKey key && plainPattern x && each rest'
            end) props
  | VArray _ elems =>
      (fix each (rest : list value) : bool :=
         match rest with
         | [] => true
         | x :: rest' => plainPattern x && each rest'
         end) elems
  | _ => true
  end.

End Spec.

(** ** Sample forms, patterns and handler tables *)

Module Samples.

Definition formOf (values : value) : UseFormReturn unit :=
  Typed {| handleRef := 0; control := {| _formValues := values |} |}.

(** The state [{kind: 'a', value: 'x'}] and the same state after [kind]
    was set to ['b']. *)
Definition stateA : value :=
  VObject 10 [("kind", VString "a"); ("value", VString "x")].
Definition stateB : value :=
  VObject 10 [("kind", VString "b"); ("value", VString "x")].

(** The pattern [{kind: 'a'}], written twice. *)
Definition kindA : value := VObject 20 [("kind", VString "a")].
Definition kindA' : value := VObject 21 [("kind", VString "a")].

(** [{a: {b: 1}, c: 2}] and [{}]. *)
Definition nested : value :=
  VObject 30 [("a", VObject 31 [("b", VNumber 1)]); ("c", VNumber 2)].
Definition empty : value := VObject 32 [].

(** [{tags: ['x', 'y']}]. *)
Definition withArray : value :=
  VObject 33 [("tags", VArray 34 [VString "x"; VString "y"])].

(** [{'a.b': 1, a: {b: 2}}]: a dotted key next to the nested one. *)
Definition colliding : value :=
  VObject 35 [("a.b", VNumber 1); ("a", VObject 36 [("b", VNumber 2)])].


(** The pattern of the second example in the documentation of
    [useFormTypeguard], cut down to its array field, and a form that holds
    these features. *)
Definition featuresPattern : value :=
  VObject 50 [("profile.features",
               VArray 51 [VString "advanced"; VString "priority"])].
Definition featuresState : value :=
  VObject 52 [("profile",
               VObject 53 [("features",
                            VArray 54 [VString "advanced"; VString "priority"])])].

(** The pattern [{nickname: undefined}] and a state without [nickname]. *)
Definition nicknameUnset : value := VObject 60 [("nickname", VUndefined)].

(** A store that holds the snapshot [{kind: 'b', value: 5}] at reference 7. *)
Definition snapshotWorld : Dispatcher.world :=
  {| Dispatcher.heap := {[ 7%nat := [("kind", VString "b"); ("value", VNumber 5)] ]};
     Dispatcher.calls := [] |}.

(** The handler tables [{a: h1, b: h2}] and [{a: h1}], with probes that
    return their own name. *)
Definition handlersAB : gmap string (Dispatcher.SubmitHandler string) :=
  <["a" := Dispatcher.probe string "a" "h1"]>
    (<["b" := Dispatcher.probe string "b" "h2"]> ∅).
Definition handlersA : gmap string (Dispatcher.SubmitHandler string) :=
  <["a" := Dispatcher.probe string "a" "h1"]> ∅.

End Samples.

(** ** More patterns, forms and stores *)

Module Further.

Import Spec.

(** An array or an object: a value that [===] compares by reference. *)
Definition isReference (v : value) : bool := isPlainObject v || isArray v.

(** A primitive other than [undefined]. *)
Definition definedPrimitive (v : value) : bool :=
  match v with
  | VNull | VBool _ | VNumber _ | VString _ => true
  | _ => false
  end.

(** The properties of a flat pattern: distinct keys, dotted or not, none of
    them [__proto__], each with a primitive value other than [undefined]. *)
Definition flatProps (props : props_t) : bool :=
  distinctKeys (map fst props)
  && forallb (fun kv => negb (isUnsafeProperty (fst kv))
                        && definedPrimitive (snd kv)) props.





(** The pattern [{tags: []}] and a form with two tags. *)
Definition tagsEmpty : value := VObject 70 [("tags", VArray 71 [])].
Definition twoTags : value :=
  VObject 72 [("tags", VArray 73 [VString "x"; VString "y"])].

(** The first two fields of the pattern of the second documented example,
    [{userType: 'premium', 'subscription.isActive': true}], and a form of
    a premium user with an active subscription. *)
Definition premiumPattern : value :=
  VObject 74 [("userType", VString "premium");
              ("subscription.isActive", VBool true)].
Definition premiumState : value :=
  VObject 75 [("userType", VString "premium");
              ("subscription", VObject 76 [("isActive", VBool true)]);
              ("name", VString "n")].

(** [{kind: 'a', value: 'y'}]: the sample state with another [value]. *)
Definition stateA' : value :=
  VObject 11 [("kind", VString "a"); ("value", VString "y")].

(** The pattern [{kind: 'a', value: 'x'}], its two halves are
    [Samples.kindA] and [valueX], and the same pattern written in the
    other order. *)
Definition valueX : value := VObject 22 [("value", VString "x")].
Definition kindAvalueX : value :=
  VObject 23 [("kind", VString "a"); ("value", VString "x")].
Definition valueXkindA : value :=
  VObject 24 [("value", VString "x"); ("kind", VString "a")].

(** The pattern [{kind: 'b'}]. *)
Definition kindB : value := VObject 25 [("kind", VString "b")].

(** Stores with a snapshot at reference 7: [{value: 5}] without a
    discriminant field, [{kind: 5}] and [{kind: '5', value: 1}]. *)
Definition noKindWorld : Dispatcher.world :=
  {| Dispatcher.heap := {[ 7%nat := [("value", VNumber 5)] ]};
     Dispatcher.calls := [] |}.
Definition numberKindWorld : Dispatcher.world :=
  {| Dispatcher.heap := {[ 7%nat := [("kind", VNumber 5)] ]};
     Dispatcher.calls := [] |}.
Definition stringKindWorld : Dispatcher.world :=
  {| Dispatcher.heap := {[ 7%nat := [("kind", VString "5"); ("value", VNumber 1)] ]};
     Dispatcher.calls := [] |}.

(** The handler table [{5: h5}]. *)
Definition handlers5 : gmap string (Dispatcher.SubmitHandler string) :=
  <["5" := Dispatcher.probe string "5" "h5"]> ∅.

End Further.

(** * Facts about the run time *)

Module Facts.

Import Spec.

(** ** Strings and paths *)

Lemma append_cons (c : ascii) (a b : string) :
  String c a +:+ b = String c (a +:+ b).
Proof. reflexivity. Qed.

Lemma append_empty_l (s : string) : "" +:+ s = s.
Proof. reflexivity. Qed.

Lemma append_empty_r (s : string) : s +:+ "" = s.
Proof.
  induction s as [|c s IH]; [reflexivity |].
  now rewrite append_cons, IH.
Qed.

Lemma split_not_nil (sep : ascii) (s : string) : split sep s <> [].
Proof.
  induction s as [|c s IH]; simpl; [discriminate |].
  destruct (Ascii.eqb c sep); [discriminate |].
  destruct (split sep s); discriminate.
Qed.

(** A string without the separator is one segment. *)
Lemma split_segment (sep : ascii) (s : string) :
  hasChar sep s = false -> split sep s = [s].
Proof.
  induction s as [|c s IH]; simpl; [reflexivity |].
  intros H. apply orb_false_iff in H as [Hc Hs].
  rewrite Ascii.eqb_sym, Hc. now rewrite (IH Hs).
Qed.

(** Splitting [a.b] where [b] has no separator: the segments of [a], then
    [b]. *)
Lemma split_snoc (sep : ascii) (a b : string) :
  hasChar sep b = false ->
  split sep (a +:+ String sep b) = split sep a ++ [b].
Proof.
  intros Hb. induction a as [|c a IH].
  - rewrite append_empty_l. simpl.
    rewrite Ascii.eqb_refl. now rewrite (split_segment _ _ Hb).
  - rewrite append_cons. simpl.
    destruct (Ascii.eqb c sep); [now rewrite IH |].
    rewrite IH.
    destruct (split sep a) as [|seg segs] eqn:E; [|reflexivity].
    now apply split_not_nil in E.
Qed.

Lemma prefixedKey_empty (key : string) : prefixedKey "" key = key.
Proof. reflexivity. Qed.

Lemma prefixedKey_nonempty (prefix key : string) :
  prefix <> "" -> prefixedKey prefix key = prefix +:+ String "." key.
Proof.
  intros H. unfold prefixedKey.
  destruct (String.eqb_spec prefix ""); [contradiction | reflexivity].
Qed.

Lemma joinPath_cons (prefix key : string) (path : list string) :
  joinPath prefix (key :: path) = joinPath (prefixedKey prefix key) path.
Proof. reflexivity. Qed.

(** Below a non-empty prefix, the keys of a path come back as the last
    segments of the dotted path. *)
Lemma split_joinPath (prefix : string) (path : list string) :
  prefix <> "" ->
  Forall (fun k => hasChar "." k = false) path ->
  split "." (joinPath prefix path) = split "." prefix ++ path.
Proof.
  intros Hp Hpath. revert prefix Hp.
  induction Hpath as [|k path Hk _ IH]; intros prefix Hp.
  - simpl. now rewrite app_nil_r.
  - rewrite joinPath_cons, IH.
    + rewrite (prefixedKey_nonempty _ _ Hp), (split_snoc _ _ _ Hk).
      now rewrite <- app_assoc.
    + rewrite (prefixedKey_nonempty _ _ Hp). destruct prefix; [contradiction | discriminate].
Qed.

(** [toPath] undoes the joining of keys that are segments. *)
Lemma toPath_joinPath (path : list string) :
  path <> [] ->
  Forall (fun k => segmentKey k = true) path ->
  toPath (joinPath "" path) = path.
Proof.
  intros Hne Hall. destruct path as [|k path]; [contradiction |].
  assert (Hdot : forall k', segmentKey k' = true -> hasChar "." k' = false).
  { intros k' H. unfold segmentKey, isDeepKey in H.
    apply andb_true_iff in H as [H _]. apply andb_true_iff in H as [_ H].
    apply negb_true_iff in H. apply orb_false_iff in H as [H _].
    now apply orb_false_iff in H as [H _]. }
  inversion Hall as [|? ? Hk Hrest]; subst.
  unfold toPath. rewrite joinPath_cons, prefixedKey_empty, split_joinPath.
  - now rewrite (split_segment _ _ (Hdot _ Hk)).
  - unfold segmentKey in Hk. apply andb_true_iff in Hk as [Hk _].
    apply andb_true_iff in Hk as [Hk _]. apply negb_true_iff in Hk.
    now apply String.eqb_neq in Hk.
  - eapply Forall_impl; [exact Hrest | exact Hdot].
Qed.

(** ** Array indices *)

Lemma string_of_uint_digits (d : Decimal.uint) (c : ascii) :
  hasChar c (NilEmpty.string_of_uint d) = true ->
  (48 <= nat_of_ascii c <= 57)%nat.
Proof.
  induction d as [|d IH|d IH|d IH|d IH|d IH|d IH|d IH|d IH|d IH|d IH];
    simpl; intros H; try discriminate;
    apply orb_true_iff in H as [H|H]; try (apply IH; exact H);
    apply Ascii.eqb_eq in H; subst c; vm_compute; lia.
Qed.

Lemma indexKey_inj (i j : nat) : indexKey i = indexKey j -> i = j.
Proof.
  unfold indexKey. intros H.
  apply Unsigned.to_uint_inj.
  assert (E : Some (Nat.to_uint i) = Some (Nat.to_uint j)).
  { rewrite <- (NilEmpty.usu (Nat.to_uint i)), <- (NilEmpty.usu (Nat.to_uint j)).
    now rewrite H. }
  now inversion E.
Qed.

Lemma indexKey_not_empty (i : nat) : indexKey i <> "".
Proof.
  unfold indexKey. intros H.
  assert (Hnil : Nat.to_uint i = Decimal.Nil).
  { destruct (Nat.to_uint i); try discriminate H. reflexivity. }
  pose proof (Unsigned.to_of (Nat.to_uint i)) as E.
  rewrite Unsigned.of_to in E. rewrite E in Hnil.
  now apply unorm_nonnil in Hnil.
Qed.

Lemma indexKey_lacks (i : nat) (c : ascii) :
  (nat_of_ascii c < 48 \/ 57 < nat_of_ascii c)%nat ->
  hasChar c (indexKey i) = false.
Proof.
  intros Hc. destruct (hasChar c (indexKey i)) eqn:E; [|reflexivity].
  apply string_of_uint_digits in E. lia.
Qed.

(** An array index is a segment of a dotted path. *)
Lemma indexKey_segment (i : nat) : segmentKey (indexKey i) = true.
Proof.
  unfold segmentKey, isDeepKey, isUnsafeProperty.
  rewrite !indexKey_lacks by (vm_compute; lia). simpl.
  rewrite andb_true_r. apply andb_true_iff. split; apply negb_true_iff.
  - apply String.eqb_neq, indexKey_not_empty.
  - apply String.eqb_neq. intros E.
    pose proof (indexKey_lacks i "_" ltac:(vm_compute; lia)) as H.
    rewrite E in H. discriminate H.
Qed.

Lemma indexedFrom_keys (i : nat) (elems : list value) :
  map fst (indexedFrom i elems) = map indexKey (seq i (length elems)).
Proof.
  revert i. induction elems as [|e elems IH]; intros i; simpl; [reflexivity |].
  now rewrite IH.
Qed.

Lemma indexedFrom_NoDup (i : nat) (elems : list value) :
  List.NoDup (map fst (indexedFrom i elems)).
Proof.
  rewrite indexedFrom_keys. apply NoDup_ListNoDup, NoDup_fmap_2.
  - intros a b. apply indexKey_inj.
  - apply NoDup_ListNoDup, List.seq_NoDup.
Qed.

Lemma indexedFrom_segments (i : nat) (elems : list value) (k : string) (v : value) :
  In (k, v) (indexedFrom i elems) -> segmentKey k = true /\ In v elems.
Proof.
  revert i. induction elems as [|e elems IH]; intros i; simpl; [tauto |].
  intros [E|H].
  - inversion E; subst. split; [apply indexKey_segment | now left].
  - destruct (IH _ H) as [Hk Hv]. split; [exact Hk | now right].
Qed.

(** ** Property lists *)

Lemma distinctKeys_NoDup (keys : list string) :
  distinctKeys keys = true -> List.NoDup keys.
Proof.
  induction keys as [|k keys IH]; simpl; intros H; [constructor |].
  apply andb_true_iff in H as [Hk Hrest]. constructor; [|now apply IH].
  intros Hin. apply negb_true_iff in Hk.
  assert (E : existsb (String.eqb k) keys = true).
  { apply existsb_exists. exists k. split; [exact Hin | apply String.eqb_refl]. }
  congruence.
Qed.

Lemma lookupProp_absent (key : string) (props : props_t) :
  ~ In key (map fst props) -> lookupProp key props = None.
Proof.
  induction props as [|[k x] props IH]; simpl; intros H; [reflexivity |].
  destruct (String.eqb_spec key k) as [->|Hne]; [tauto |].
  apply IH. tauto.
Qed.

(** With distinct keys, a property that is in the list is the one a read
    finds. *)
Lemma lookupProp_In (key : string) (v : value) (props : props_t) :
  List.NoDup (map fst props) -> In (key, v) props ->
  lookupProp key props = Some v.
Proof.
  induction props as [|[k x] props IH]; simpl; intros Hnd Hin; [tauto |].
  inversion Hnd as [|? ? Hk Hrest]; subst.
  destruct Hin as [E|Hin].
  - inversion E; subst. now rewrite String.eqb_refl.
  - destruct (String.eqb_spec key k) as [->|Hne]; [|now apply IH].
    exfalso. apply Hk. apply in_map_iff. now exists (k, v).
Qed.

Lemma setProp_In (key : string) (v : value) (props : props_t) kv :
  In kv (setProp key v props) -> kv = (key, v) \/ In kv props.
Proof.
  induction props as [|[k x] props IH]; simpl.
  - intros [E|[]]. now left.
  - destruct (String.eqb_spec key k) as [->|Hne]; simpl.
    + intros [E|H]; [now left | now right; right].
    + intros [E|H]; [now right; left |].
      destruct (IH H) as [E|H']; [now left | now right; right].
Qed.

Lemma setProp_keys (key : string) (v : value) (props : props_t) (k : string) :
  In k (map fst (setProp key v props)) <-> k = key \/ In k (map fst props).
Proof.
  induction props as [|[k' x] props IH]; simpl.
  - intuition congruence.
  - destruct (String.eqb_spec key k') as [->|Hne]; simpl.
    + intuition congruence.
    + rewrite IH. intuition congruence.
Qed.

Lemma Object_assign_In (target source : props_t) kv :
  In kv (Object_assign target source) -> In kv target \/ In kv source.
Proof.
  unfold Object_assign. revert target.
  induction source as [|[k x] source IH]; simpl; intros target H; [now left |].
  destruct (IH _ H) as [H'|H']; [|now right; right].
  destruct (setProp_In _ _ _ _ H') as [E|H'']; [now right; left | now left].
Qed.

Lemma Object_assign_keys (target source : props_t) (k : string) :
  In k (map fst (Object_assign target source)) <->
  In k (map fst target) \/ In k (map fst source).
Proof.
  unfold Object_assign. revert target.
  induction source as [|[k' x] source IH]; simpl; intros target; [tauto |].
  rewrite IH, setProp_keys. intuition congruence.
Qed.

(** ** The loop of flattenObjectImpl *)

Lemma flattenObjectImpl_unfold (object : value) (prefix : string) :
  flattenObjectImpl object prefix
  = fold_left (flattenStep prefix) (ownProps object) [].
Proof.
  destruct object as [| | | | |ref elems|ref props]; try reflexivity.
  - simpl. generalize (@nil (string * value)) as result. generalize 0%nat as i.
    induction elems as [|e elems IH]; intros i result; [reflexivity |].
    simpl. now rewrite IH.
  - simpl. generalize (@nil (string * value)) as result.
    induction props as [|[k x] props IH]; intros result; [reflexivity |].
    simpl. now rewrite IH.
Qed.

Lemma visit_descends (key : string) (v : value) (nested result : props_t) :
  descends v = true -> visit key v nested result = Object_assign result nested.
Proof.
  unfold descends, visit. intros H.
  destruct (isPlainObject v && _); [reflexivity |].
  simpl in H. now rewrite H.
Qed.

Lemma visit_leaf (key : string) (v : value) (nested result : props_t) :
  descends v = false -> visit key v nested result = setProp key v result.
Proof.
  unfold descends, visit. intros H.
  apply orb_false_iff in H as [H1 H2]. now rewrite H1, H2.
Qed.

(** Induction on a value through its own properties. *)
Lemma value_props_ind (P : value -> Prop) :
  (forall object,
      (forall k child, In (k, child) (ownProps object) -> P child) -> P object) ->
  forall v, P v.
Proof.
  intros Hstep. induction v as [| | | | |ref elems IH|ref props IH] using value_ind;
    apply Hstep; simpl; try tauto.
  - intros k child Hin. apply indexedFrom_segments in Hin as [_ Hin].
    rewrite List.Forall_forall in IH. now apply IH.
  - intros k child Hin. rewrite List.Forall_forall in IH. exact (IH _ Hin).
Qed.

(** ** What flattenObject holds *)

(** Every pair of the flattening is a leaf reached from the object, under
    the dotted path of the keys that lead to it. *)
Lemma flattenObjectImpl_sound (object : value) :
  forall prefix key v,
    In (key, v) (flattenObjectImpl object prefix) ->
    exists path, reaches object path v /\ key = joinPath prefix path.
Proof.
  induction object as [object IH] using value_props_ind.
  intros prefix key v. rewrite flattenObjectImpl_unfold.
  assert (Hfold : forall rest result,
             (forall kv, In kv rest -> In kv (ownProps object)) ->
             (forall key v, In (key, v) result ->
                exists path, reaches object path v /\ key = joinPath prefix path) ->
             In (key, v) (fold_left (flattenStep prefix) rest result) ->
             exists path, reaches object path v /\ key = joinPath prefix path).
  { induction rest as [|[k child] rest IHrest]; intros result Hsub Hres;
      [apply Hres |].
    simpl. apply IHrest; [intros kv Hkv; apply Hsub; now right |].
    assert (Hown : In (k, child) (ownProps object)) by (apply Hsub; now left).
    intros key' v' Hin. unfold flattenStep in Hin. simpl in Hin.
    destruct (descends child) eqn:Hd.
    - rewrite (visit_descends _ _ _ _ Hd) in Hin.
      apply Object_assign_In in Hin as [Hin|Hin]; [now apply Hres |].
      destruct (IH _ _ Hown _ _ _ Hin) as (path & Hreach & ->).
      exists (k :: path). split; [|reflexivity].
      now apply reaches_step with child.
    - rewrite (visit_leaf _ _ _ _ Hd) in Hin.
      apply setProp_In in Hin as [E|Hin]; [|now apply Hres].
      inversion E; subst. exists [k]. split; [|reflexivity].
      now apply reaches_leaf. }
  apply Hfold; [tauto | intros ? ? []].
Qed.

Lemma flattenStep_keeps (prefix : string) (result : props_t) kv (key : string) :
  In key (map fst result) -> In key (map fst (flattenStep prefix result kv)).
Proof.
  intros H. unfold flattenStep. destruct (descends (snd kv)) eqn:Hd.
  - rewrite (visit_descends _ _ _ _ Hd). apply Object_assign_keys. now left.
  - rewrite (visit_leaf _ _ _ _ Hd). apply setProp_keys. now right.
Qed.

Lemma fold_flattenStep_keeps (prefix : string) (rest result : props_t) (key : string) :
  In key (map fst result) ->
  In key (map fst (fold_left (flattenStep prefix) rest result)).
Proof.
  revert result. induction rest as [|kv rest IH]; intros result H; [exact H |].
  simpl. apply IH. now apply flattenStep_keeps.
Qed.

Lemma fold_flattenStep_adds (prefix : string) (rest result : props_t) kv (key : string) :
  In kv rest ->
  (forall result', In key (map fst (flattenStep prefix result' kv))) ->
  In key (map fst (fold_left (flattenStep prefix) rest result)).
Proof.
  revert result. induction rest as [|kv' rest IH]; intros result Hin Hadd; [destruct Hin |].
  simpl. destruct Hin as [->|Hin].
  - apply fold_flattenStep_keeps, Hadd.
  - now apply IH.
Qed.

(** Every leaf reached from the object has its dotted path among the keys
    of the flattening. *)
Lemma flattenObjectImpl_complete (object : value) (path : list string) (v : value) :
  reaches object path v ->
  forall prefix,
    In (joinPath prefix path) (Object_keys (flattenObjectImpl object prefix)).
Proof.
  unfold Object_keys.
  induction 1 as [object key v Hown Hd|object key child path v Hown Hd _ IH];
    intros prefix; rewrite flattenObjectImpl_unfold.
  - apply fold_flattenStep_adds with (kv := (key, v)); [exact Hown |].
    intros result'. unfold flattenStep. simpl.
    rewrite (visit_leaf _ _ _ _ Hd). apply setProp_keys. now left.
  - apply fold_flattenStep_adds with (kv := (key, child)); [exact Hown |].
    intros result'. unfold flattenStep. simpl.
    rewrite (visit_descends _ _ _ _ Hd). apply Object_assign_keys. right.
    apply (IH (prefixedKey prefix key)).
Qed.

(** ** Reading a flattened key back with get *)

Lemma plainPattern_own (object : value) (k : string) (child : value) :
  plainPattern object = true ->
  In (k, child) (ownProps object) ->
  segmentKey k = true /\ plainPattern child = true
  /\ lookupProp k (ownProps object) = Some child.
Proof.
  intros Hwf Hin.
  destruct object as [| | | | |ref elems|ref props]; simpl in Hin; try tauto.
  - split; [exact (proj1 (indexedFrom_segments _ _ _ _ Hin)) |].
    split; [|apply lookupProp_In; [apply indexedFrom_NoDup | exact Hin]].
    apply indexedFrom_segments in Hin as [_ Hin].
    simpl in Hwf. revert Hwf Hin. clear.
    induction elems as [|e elems IH]; simpl; [tauto |].
    intros Hwf [->|Hin]; apply andb_true_iff in Hwf as [H1 H2]; [exact H1 | now apply IH].
  - simpl in Hwf. apply andb_true_iff in Hwf as [Hdist Heach].
    assert (H : segmentKey k = true /\ plainPattern child = true).
    { revert Heach Hin. clear.
      induction props as [|[k' x] props IH]; simpl; [tauto |].
      intros Heach Hin. apply andb_true_iff in Heach as [H1 H2].
      apply andb_true_iff in H1 as [Hk Hx].
      destruct Hin as [E|Hin]; [inversion E; subst; now split | now apply IH]. }
    destruct H as [Hk Hc]. split; [exact Hk |]. split; [exact Hc |].
    apply lookupProp_In; [now apply distinctKeys_NoDup | exact Hin].
Qed.

Lemma segmentKey_safe (k : string) :
  segmentKey k = true ->
  k <> "" /\ isDeepKey k = false /\ isUnsafeProperty k = false.
Proof.
  unfold segmentKey. intros H.
  apply andb_true_iff in H as [H H3]. apply andb_true_iff in H as [H1 H2].
  apply negb_true_iff in H1, H2, H3. apply String.eqb_neq in H1. tauto.
Qed.

Lemma getProp_own (object : value) (k : string) (child : value) :
  lookupProp k (ownProps object) = Some child -> getProp object k = child.
Proof. unfold getProp. now intros ->. Qed.

Lemma own_not_nullish (object : value) kv :
  In kv (ownProps object) -> isNullish object = false.
Proof. destruct object; simpl; tauto. Qed.

(** In a plain pattern the walk along the keys of a reached leaf ends at
    that leaf, and the keys are segments. *)
Lemma reaches_walkPath (object : value) (path : list string) (v : value) :
  reaches object path v ->
  plainPattern object = true ->
  walkPath object path = v
  /\ Forall (fun k => segmentKey k = true) path /\ path <> [].
Proof.
  induction 1 as [object key v Hown Hd|object key child path v Hown Hd _ IH];
    intros Hwf;
    destruct (plainPattern_own _ _ _ Hwf Hown) as (Hk & Hc & Hlook);
    destruct (segmentKey_safe _ Hk) as (_ & _ & Hsafe);
    simpl; rewrite (own_not_nullish _ _ Hown), Hsafe, (getProp_own _ _ _ Hlook).
  - split; [reflexivity |]. split; [|discriminate]. now repeat constructor.
  - destruct (IH Hc) as (Hwalk & Hsegs & _).
    split; [exact Hwalk |]. split; [|discriminate]. now constructor.
Qed.

Lemma own_keys_segments (object : value) (key : string) :
  plainPattern object = true ->
  In key (map fst (ownProps object)) -> segmentKey key = true.
Proof.
  intros Hwf Hin. apply in_map_iff in Hin as ([k x] & <- & Hin).
  exact (proj1 (plainPattern_own _ _ _ Hwf Hin)).
Qed.

(** For a plain pattern, [get] reads back under a flattened key the value
    the flattening paired with it. *)
Lemma get_flattenObject (pattern : value) (key : string) (v : value) :
  plainPattern pattern = true ->
  In (key, v) (flattenObject pattern) ->
  get pattern key = v.
Proof.
  intros Hwf Hin.
  destruct (flattenObjectImpl_sound _ _ _ _ Hin) as (path & Hreach & ->).
  destruct (reaches_walkPath _ _ _ Hreach Hwf) as (Hwalk & Hsegs & Hne).
  unfold get.
  assert (Hnn : isNullish pattern = false).
  { inversion Hreach; subst; eapply own_not_nullish; eassumption. }
  rewrite Hnn.
  destruct path as [|k [|k2 path]]; [contradiction | |].
  - (* a single key *)
    pose proof (List.Forall_inv Hsegs) as Hk. simpl in Hk.
    destruct (segmentKey_safe _ Hk) as (_ & Hdeep & Hsafe).
    simpl in Hwalk. rewrite Hnn, Hsafe in Hwalk.
    change (joinPath "" [k]) with k. rewrite Hsafe, Hwalk, Hdeep.
    now destruct v.
  - (* a dotted path: no own key holds a dot *)
    set (key := joinPath "" (k :: k2 :: path)).
    assert (Hdot : hasChar "." key = true).
    { subst key.
      pose proof (toPath_joinPath (k :: k2 :: path) ltac:(discriminate) Hsegs) as E.
      destruct (hasChar "." (joinPath "" (k :: k2 :: path))) eqn:Hc; [reflexivity |].
      unfold toPath in E. rewrite (split_segment _ _ Hc) in E. discriminate E. }
    assert (Hdeep : isDeepKey key = true) by (unfold isDeepKey; now rewrite Hdot).
    assert (Hsafe : isUnsafeProperty key = false).
    { unfold isUnsafeProperty. apply String.eqb_neq. intros E.
      rewrite E in Hdot. vm_compute in Hdot. discriminate Hdot. }
    assert (Hown : lookupProp key (ownProps pattern) = None).
    { apply lookupProp_absent. intros Hkey.
      apply (own_keys_segments _ _ Hwf) in Hkey.
      destruct (segmentKey_safe _ Hkey) as (_ & Hd & _). congruence. }
    assert (Hprop : getProp pattern key = VUndefined).
    { unfold getProp. rewrite Hown. destruct pattern; try reflexivity.
      destruct (String.eqb_spec key "length") as [E|_]; [|reflexivity].
      rewrite E in Hdot. vm_compute in Hdot. discriminate Hdot. }
    rewrite Hsafe, Hprop, Hdeep.
    subst key.
    rewrite (toPath_joinPath (k :: k2 :: path) ltac:(discriminate) Hsegs).
    exact Hwalk.
Qed.

(** ** Plain patterns: the flattening holds every reached leaf *)

Lemma setProp_In_new (key : string) (v : value) (props : props_t) :
  In (key, v) (setProp key v props).
Proof.
  induction props as [|[k x] props IH]; simpl; [now left |].
  destruct (String.eqb_spec key k) as [->|Hne]; [now left | now right].
Qed.

Lemma setProp_In_other (key : string) (v : value) (props : props_t)
    (K : string) (x : value) :
  K <> key -> In (K, x) props -> In (K, x) (setProp key v props).
Proof.
  intros Hne. induction props as [|[k y] props IH]; simpl; [tauto |].
  destruct (String.eqb_spec key k) as [->|Hk]; simpl.
  - intros [E|H]; [inversion E; subst; contradiction | now right].
  - intros [E|H]; [now left | right; now apply IH].
Qed.

Lemma setProp_NoDup (key : string) (v : value) (props : props_t) :
  List.NoDup (map fst props) -> List.NoDup (map fst (setProp key v props)).
Proof.
  induction props as [|[k x] props IH]; simpl; intros Hnd.
  - constructor; [tauto | constructor].
  - inversion Hnd as [|? ? Hk Hrest]; subst.
    destruct (String.eqb_spec key k) as [->|Hne]; simpl; [now constructor |].
    constructor; [|now apply IH].
    rewrite setProp_keys. intros [E|H]; [congruence | contradiction].
Qed.

Lemma Object_assign_NoDup (target source : props_t) :
  List.NoDup (map fst target) ->
  List.NoDup (map fst (Object_assign target source)).
Proof.
  unfold Object_assign. revert target.
  induction source as [|[k x] source IH]; intros target H; [exact H |].
  simpl. apply IH. now apply setProp_NoDup.
Qed.

Lemma Object_assign_In_target (target source : props_t) (K : string) (x : value) :
  ~ In K (map fst source) -> In (K, x) target ->
  In (K, x) (Object_assign target source).
Proof.
  unfold Object_assign. revert target.
  induction source as [|[k y] source IH]; intros target Hnot Hin; [exact Hin |].
  simpl in *. apply IH; [tauto |].
  apply setProp_In_other; [intros ->; tauto | exact Hin].
Qed.

Lemma Object_assign_In_source (target source : props_t) (K : string) (x : value) :
  List.NoDup (map fst source) -> In (K, x) source ->
  In (K, x) (Object_assign target source).
Proof.
  revert target.
  induction source as [|[k y] source IH]; intros target Hnd Hin; [destruct Hin |].
  inversion Hnd as [|? ? Hk Hrest]; subst.
  change (Object_assign target ((k, y) :: source))
    with (Object_assign (setProp k y target) source).
  destruct Hin as [E|Hin]; [|now apply IH].
  inversion E; subst.
  apply Object_assign_In_target; [exact Hk | apply setProp_In_new].
Qed.

Lemma flattenStep_NoDup (prefix : string) (result : props_t) kv :
  List.NoDup (map fst result) ->
  List.NoDup (map fst (flattenStep prefix result kv)).
Proof.
  intros H. unfold flattenStep. destruct (descends (snd kv)) eqn:Hd.
  - rewrite (visit_descends _ _ _ _ Hd). now apply Object_assign_NoDup.
  - rewrite (visit_leaf _ _ _ _ Hd). now apply setProp_NoDup.
Qed.

Lemma flattenObjectImpl_NoDup (object : value) (prefix : string) :
  List.NoDup (map fst (flattenObjectImpl object prefix)).
Proof.
  rewrite flattenObjectImpl_unfold.
  assert (H : List.NoDup (map fst (@nil (string * value)))) by constructor.
  revert H. generalize (@nil (string * value)) as result.
  induction (ownProps object) as [|kv rest IH]; intros result H; [exact H |].
  simpl. apply IH. now apply flattenStep_NoDup.
Qed.

Lemma segment_dot_free (k : string) : segmentKey k = true -> hasChar "." k = false.
Proof.
  intros H. destruct (segmentKey_safe _ H) as (_ & Hdeep & _).
  unfold isDeepKey in Hdeep.
  apply orb_false_iff in Hdeep as [Hdeep _].
  now apply orb_false_iff in Hdeep as [Hdeep _].
Qed.

(** Two lists of segments below the same prefix have the same dotted path
    only if they are the same list. *)
Lemma joinPath_inj (prefix : string) (p1 p2 : list string) :
  Forall (fun k => segmentKey k = true) p1 ->
  Forall (fun k => segmentKey k = true) p2 ->
  p1 <> [] -> p2 <> [] ->
  joinPath prefix p1 = joinPath prefix p2 -> p1 = p2.
Proof.
  intros H1 H2 N1 N2 E.
  destruct (String.eqb_spec prefix "") as [->|Hp].
  - rewrite <- (toPath_joinPath p1 N1 H1), <- (toPath_joinPath p2 N2 H2).
    now rewrite E.
  - assert (D1 : Forall (fun k => hasChar "." k = false) p1)
      by (eapply Forall_impl; [exact H1 | exact segment_dot_free]).
    assert (D2 : Forall (fun k => hasChar "." k = false) p2)
      by (eapply Forall_impl; [exact H2 | exact segment_dot_free]).
    apply (f_equal (split ".")) in E.
    rewrite (split_joinPath _ _ Hp D1), (split_joinPath _ _ Hp D2) in E.
    now apply app_inv_head in E.
Qed.

Lemma fold_flattenStep_stays (prefix : string) (rest result : props_t)
    (k K : string) (x : value) :
  ~ In k (map fst rest) ->
  (forall k' child' result',
      In (k', child') rest -> k' <> k ->
      In (K, x) result' -> In (K, x) (flattenStep prefix result' (k', child'))) ->
  In (K, x) result ->
  In (K, x) (fold_left (flattenStep prefix) rest result).
Proof.
  revert result.
  induction rest as [|[k' c'] rest IH]; intros result Hnot Hkeep Hres;
    [exact Hres |].
  simpl in *. apply IH; [tauto | |].
  - intros k'' child' result' Hin. apply Hkeep. now right.
  - apply Hkeep; [now left | intros ->; tauto | exact Hres].
Qed.

Lemma fold_flattenStep_pair (prefix : string) (rest result : props_t)
    (k : string) (child : value) (K : string) (x : value) :
  List.NoDup (map fst rest) ->
  In (k, child) rest ->
  (forall result', In (K, x) (flattenStep prefix result' (k, child))) ->
  (forall k' child' result',
      In (k', child') rest -> k' <> k ->
      In (K, x) result' -> In (K, x) (flattenStep prefix result' (k', child'))) ->
  In (K, x) (fold_left (flattenStep prefix) rest result).
Proof.
  intros Hnd Hin Hadd. revert result.
  induction rest as [|[k0 c0] rest IH]; intros result Hkeep; [destruct Hin |].
  inversion Hnd as [|? ? Hk0 Hrest]; subst. simpl.
  destruct Hin as [E|Hin].
  - inversion E; subst.
    apply (fold_flattenStep_stays prefix rest _ k K x); [exact Hk0 | | apply Hadd].
    intros k' child' result' Hin'. apply Hkeep. now right.
  - apply IH; [exact Hrest | exact Hin |].
    intros k' child' result' Hin'. apply Hkeep. now right.
Qed.

(** The properties of a plain pattern have distinct keys. *)
Lemma plainPattern_NoDup (object : value) :
  plainPattern object = true -> List.NoDup (map fst (ownProps object)).
Proof.
  destruct object as [| | | | |ref elems|ref props]; simpl; intros H;
    try constructor.
  - apply indexedFrom_NoDup.
  - apply andb_true_iff in H as [H _]. now apply distinctKeys_NoDup.
Qed.

(** A sibling property does not write the dotted paths below [k]. *)
Lemma sibling_keeps (object : value) (prefix k k' : string) (child' : value)
    (path : list string) (x : value) (result : props_t) :
  plainPattern object = true ->
  In (k', child') (ownProps object) ->
  k' <> k ->
  Forall (fun s => segmentKey s = true) (k :: path) ->
  In (joinPath prefix (k :: path), x) result ->
  In (joinPath prefix (k :: path), x) (flattenStep prefix result (k', child')).
Proof.
  intros Hwf Hown Hne Hsegs Hin.
  destruct (plainPattern_own _ _ _ Hwf Hown) as (Hk' & Hc' & _).
  unfold flattenStep. simpl. destruct (descends child') eqn:Hd.
  - rewrite (visit_descends _ _ _ _ Hd).
    apply Object_assign_In_target; [|exact Hin].
    intros Hkey. apply in_map_iff in Hkey as ([K' v'] & HK & Hin').
    simpl in HK. subst K'.
    destruct (flattenObjectImpl_sound _ _ _ _ Hin') as (path' & Hreach & E).
    destruct (reaches_walkPath _ _ _ Hreach Hc') as (_ & Hsegs' & _).
    assert (E' : k :: path = k' :: path').
    { apply (joinPath_inj prefix);
        [exact Hsegs | now constructor | discriminate | discriminate | exact E]. }
    inversion E'. congruence.
  - rewrite (visit_leaf _ _ _ _ Hd).
    apply setProp_In_other; [|exact Hin].
    intros E.
    assert (E' : k :: path = [k']).
    { apply (joinPath_inj prefix);
        [exact Hsegs | now repeat constructor | discriminate | discriminate
        | exact E]. }
    inversion E'. congruence.
Qed.

(** In a plain pattern every reached leaf is in the flattening, paired with
    its dotted path. *)
Lemma flattenObjectImpl_exact (object : value) (path : list string) (v : value) :
  reaches object path v ->
  plainPattern object = true ->
  forall prefix, In (joinPath prefix path, v) (flattenObjectImpl object prefix).
Proof.
  induction 1 as [object key v Hown Hd|object key child path v Hown Hd Hreach IH];
    intros Hwf prefix; rewrite flattenObjectImpl_unfold;
    destruct (plainPattern_own _ _ _ Hwf Hown) as (Hk & Hc & _).
  - apply fold_flattenStep_pair with (k := key) (child := v);
      [now apply plainPattern_NoDup | exact Hown | |].
    + intros result'. unfold flattenStep. simpl.
      rewrite (visit_leaf _ _ _ _ Hd). apply setProp_In_new.
    + intros k' child' result' Hown' Hne.
      apply (sibling_keeps object prefix key k' child' [] v result' Hwf Hown' Hne).
      now repeat constructor.
  - destruct (reaches_walkPath _ _ _ Hreach Hc) as (_ & Hsegs & _).
    apply fold_flattenStep_pair with (k := key) (child := child);
      [now apply plainPattern_NoDup | exact Hown | |].
    + intros result'. unfold flattenStep. simpl.
      rewrite (visit_descends _ _ _ _ Hd).
      apply Object_assign_In_source; [apply flattenObjectImpl_NoDup |].
      apply (IH Hc (prefixedKey prefix key)).
    + intros k' child' result' Hown' Hne.
      apply (sibling_keeps object prefix key k' child' path v result' Hwf Hown' Hne).
      now constructor.
Qed.

(** ** Values that differ in their references only *)



Lemma ownProps_erase (object : value) :
  ownProps (erase object) = eraseProps (ownProps object).
Proof.
  destruct object as [| | | | |ref elems|ref props]; try reflexivity.
  simpl. generalize 0%nat as i.
  induction elems as [|e elems IH]; intros i; [reflexivity |].
  simpl. now rewrite IH.
Qed.

Lemma descends_erase (v : value) : descends (erase v) = descends v.
Proof.
  unfold descends. rewrite ownProps_erase. unfold Object_keys, eraseProps.
  rewrite !length_map. now destruct v.
Qed.

Lemma setProp_erase (key : string) (v : value) (props : props_t) :
  setProp key (erase v) (eraseProps props) = eraseProps (setProp key v props).
Proof.
  induction props as [|[k x] props IH]; [reflexivity |].
  simpl. destruct (String.eqb key k); simpl; [reflexivity | now rewrite IH].
Qed.

Lemma Object_assign_erase (target source : props_t) :
  Object_assign (eraseProps target) (eraseProps source)
  = eraseProps (Object_assign target source).
Proof.
  unfold Object_assign. revert target.
  induction source as [|[k x] source IH]; intros target; [reflexivity |].
  simpl. now rewrite setProp_erase, IH.
Qed.

(** The flattening of a value without its references is the flattening of
    the value, without the references of its leaves. *)
Lemma flattenObjectImpl_erase (object : value) :
  forall prefix,
    flattenObjectImpl (erase object) prefix
    = eraseProps (flattenObjectImpl object prefix).
Proof.
  induction object as [object IH] using value_props_ind.
  intros prefix. rewrite !flattenObjectImpl_unfold, ownProps_erase.
  change (@nil (string * value)) with (eraseProps []) at 1.
  generalize (@nil (string * value)) as result.
  assert (Hsub : forall kv, In kv (ownProps object) -> In kv (ownProps object))
    by tauto.
  revert Hsub. generalize (ownProps object) at 1 3 4 as rest.
  induction rest as [|[k x] rest IHrest]; intros Hsub result; [reflexivity |].
  simpl. rewrite <- IHrest by (intros kv Hkv; apply Hsub; now right).
  f_equal. unfold flattenStep. simpl.
  rewrite (IH k x (Hsub _ (or_introl eq_refl))).
  destruct (descends x) eqn:Hd.
  - rewrite !visit_descends by (now rewrite ?descends_erase).
    apply Object_assign_erase.
  - rewrite !visit_leaf by (now rewrite ?descends_erase).
    apply setProp_erase.
Qed.

Lemma eraseProps_keys (props : props_t) :
  Object_keys (eraseProps props) = Object_keys props.
Proof.
  unfold Object_keys, eraseProps. rewrite map_map. now apply map_ext.
Qed.

Lemma discriminantKeysOf_erase (pattern : value) :
  Matcher.discriminantKeysOf (erase pattern) = Matcher.discriminantKeysOf pattern.
Proof.
  unfold Matcher.discriminantKeysOf, flattenObject.
  now rewrite flattenObjectImpl_erase, eraseProps_keys.
Qed.

End Facts.

(** * The matcher *)

Module MatcherFacts.

Import Spec Samples Matcher Facts.

Lemma everyFrom_watched (f : string -> value) (pattern : value)
    (before : list value) (keys : list string) :
  everyFrom (fun key index =>
               strictEquals (nth index (before ++ map f keys) VUndefined)
                            (get pattern key))
            (length before) keys
  = forallb (fun key => strictEquals (f key) (get pattern key)) keys.
Proof.
  revert before. induction keys as [|key keys IH]; intros before; [reflexivity |].
  simpl. f_equal.
  - rewrite app_nth2 by lia. now rewrite Nat.sub_diag.
  - specialize (IH (before ++ [f key])).
    rewrite length_app, Nat.add_1_r, <- app_assoc in IH. exact IH.
Qed.

(** The boolean of a first evaluation: every watched value is strictly
    equal to what [get] reads in the pattern under the same key. *)
Lemma useFormTypeguard_keys {T : Type} (form : UseFormReturn T) (pattern : value) :
  useFormTypeguard form pattern
  = forallb (fun key =>
               strictEquals (getFieldValue (control (untyped form)) key)
                            (get pattern key))
            (discriminantKeysOf pattern).
Proof.
  unfold useFormTypeguard, useWatch, compute, every.
  exact (everyFrom_watched _ pattern [] _).
Qed.

Lemma forallb_keys (f : string -> value) (g : string -> value) (flat : props_t) :
  (forall key v, In (key, v) flat -> g key = v) ->
  forallb (fun key => strictEquals (f key) (g key)) (Object_keys flat)
  = forallb (fun kv => strictEquals (f (fst kv)) (snd kv)) flat.
Proof.
  unfold Object_keys. intros H.
  induction flat as [|[k v] flat IH]; [reflexivity |].
  simpl. rewrite (H k v) by now left.
  rewrite IH; [reflexivity |]. intros key v' Hin. apply H. now right.
Qed.

(** ** The memo and the subscription *)

Lemma Object_is_refl_stringify (v : value) :
  React.Object_is (JSON.stringify v) (JSON.stringify v) = true.
Proof.
  unfold React.Object_is, JSON.stringify.
  destruct v; simpl; try reflexivity; apply String.eqb_refl.
Qed.

Lemma memoDeps_equal (pattern : value) :
  React.areHookInputsEqual (memoDeps pattern) (memoDeps pattern) = true.
Proof.
  unfold memoDeps. simpl. now rewrite Object_is_refl_stringify.
Qed.



(** An evaluation that finds the dependencies of its pattern in the memo
    cell changes nothing. *)
Lemma evaluate_same_deps {T : Type} (form : UseFormReturn T) (pattern : value)
    (m : matcher) (keys : list string) (deps : list value) :
  memo m = Some (keys, deps) ->
  React.areHookInputsEqual (memoDeps pattern) deps = true ->
  evaluate form pattern (Some m) = m.
Proof.
  intros Hm Hd. unfold evaluate, React.useMemo. cbv beta iota zeta.
  rewrite Hm, Hd. destruct m; simpl in *. now rewrite Hm.
Qed.



(** ** Mismatched and absent fields *)

(** One watched value that is not strictly equal to the pattern's makes
    the matcher answer [false]. *)
Lemma mismatch_at_key {T : Type} (form : UseFormReturn T) (pattern : value)
    (key : string) :
  In key (discriminantKeysOf pattern) ->
  strictEquals (getFieldValue (control (untyped form)) key) (get pattern key)
  = false ->
  useFormTypeguard form pattern = false.
Proof.
  intros Hkey Hne. rewrite useFormTypeguard_keys.
  apply not_true_iff_false. intros Hall.
  rewrite forallb_forall in Hall. specialize (Hall key Hkey). congruence.
Qed.



End MatcherFacts.

(** * The flattening *)

Module FlattenFacts.

Import Spec Samples Facts.

(** C4 (as amended).  Every pair of the flattening is a leaf of the pattern
    with the dotted path that leads to it, and every leaf of the pattern
    has its dotted path among the flattened keys, where the descent goes
    through plain mappings that have a key and through arrays, element by
    index, and a leaf is any other value: a primitive or an empty mapping.
    For a pattern written as a nested object literal the flattening is
    exactly the set of these (dotted path, leaf) pairs.
    [{a: {b: 1}, c: 2}] flattens to [a.b] and [c], [{}] to nothing, and
    [{tags: ['x', 'y']}] to [tags.0] and [tags.1]. *)
Theorem flattenObject_reachable_leaves (pattern : value) :
  (forall key v,
      In (key, v) (flattenObject pattern) ->
      exists path, reaches pattern path v /\ key = joinPath "" path)
  /\ (forall path v,
        reaches pattern path v ->
        In (joinPath "" path) (Object_keys (flattenObject pattern)))
  /\ (plainPattern pattern = true ->
      forall key v,
        In (key, v) (flattenObject pattern)
        <-> exists path, reaches pattern path v /\ key = joinPath "" path)
  /\ flattenObject nested = [("a.b", VNumber 1); ("c", VNumber 2)]
  /\ flattenObject empty = []
  /\ flattenObject withArray = [("tags.0", VString "x"); ("tags.1", VString "y")].
Proof.
  split; [|split; [|split; [|repeat split]]].
  - intros key v. apply flattenObjectImpl_sound.
  - intros path v Hreach. exact (flattenObjectImpl_complete _ _ _ Hreach "").
  - intros Hplain key v. split; [apply flattenObjectImpl_sound |].
    intros (path & Hreach & ->).
    exact (flattenObjectImpl_exact _ _ _ Hreach Hplain "").
Qed.

Lemma flattenObject_reachable_leaves_witness :
  plainPattern nested = true
  /\ reaches nested ["a"; "b"] (VNumber 1)
  /\ In ("a.b", VNumber 1) (flattenObject nested).
Proof.
  assert (Hreach : reaches nested ["a"; "b"] (VNumber 1)).
  { apply reaches_step with (child := VObject 31 [("b", VNumber 1)]).
    - now left.
    - reflexivity.
    - apply reaches_leaf; [now left | reflexivity]. }
  split; [reflexivity |]. split; [exact Hreach |].
  destruct (flattenObject_reachable_leaves nested) as (_ & _ & Hexact & _).
  apply (Hexact eq_refl). exists ["a"; "b"]. split; [exact Hreach | reflexivity].
Defined.

(** C4 (as stated) fails.  The array of [{tags: ['x', 'y']}] is descended
    into: the flattening holds one pair for each element and none for the
    array, where the specification's flattening holds the array as one
    leaf.  And of the two leaves of [{'a.b': 1, a: {b: 2}}], both reached
    under the dotted path [a.b], the flattening holds the second only. *)
Lemma flattenObject_descends_arrays :
  (flattenObject withArray = [("tags.0", VString "x"); ("tags.1", VString "y")]
   /\ flatten withArray "" = [("tags", VArray 34 [VString "x"; VString "y"])]
   /\ lookupProp "tags" (flattenObject withArray) = None)
  /\ (flattenObject colliding = [("a.b", VNumber 2)]
      /\ reaches colliding ["a.b"] (VNumber 1)
      /\ joinPath "" ["a.b"] = "a.b").
Proof.
  repeat split. apply reaches_leaf; [now left | reflexivity].
Qed.

End FlattenFacts.

(** * The accessor factory *)

Module FormCtxFacts.

Import FormCtx.

(** C6.  Whatever variant key the hook is asked for, and whatever the
    record holds, it answers with the handle of the enclosing provider:
    the requested key only chooses the static type. *)
Theorem accessor_same_handle
    (TFormValues DiscriminantValue : Type)
    (FormValuesByDiscriminant : DiscriminantValue -> Type)
    (requested other : option DiscriminantValue) (context : Handle) :
  let useFormCtx :=
    createDiscriminatedFormCtx TFormValues DiscriminantValue
                               FormValuesByDiscriminant tt in
  untyped (useFormCtx requested context) = context
  /\ untyped (useFormCtx requested context) = untyped (useFormCtx other context).
Proof. split; reflexivity. Qed.

End FormCtxFacts.

(** * The dispatcher *)

Module DispatcherFacts.

Import Spec Samples Dispatcher.

(** ** omit *)

Lemma omit_fresh (obj : nat) (keys : list string) (w : world) :
  heap w !! fst (omit obj keys w) = None.
Proof.
  unfold omit. simpl. apply not_elem_of_dom, is_fresh.
Qed.

Lemma fold_alter_other (result obj : nat) (keys : list string)
    (h : gmap nat props_t) :
  obj <> result ->
  fold_left (fun h key => alter (deleteProp key) result h) keys h !! obj
  = h !! obj.
Proof.
  intros Hne. revert h. induction keys as [|key keys IH]; intros h; [reflexivity |].
  simpl. rewrite IH. now apply lookup_alter_ne.
Qed.

Lemma fold_alter_result (result : nat) (keys : list string)
    (h : gmap nat props_t) (table : props_t) :
  h !! result = Some table ->
  fold_left (fun h key => alter (deleteProp key) result h) keys h !! result
  = Some (fold_left (fun t key => deleteProp key t) keys table).
Proof.
  revert h table. induction keys as [|key keys IH]; intros h table Hh; [exact Hh |].
  simpl. apply IH. rewrite lookup_alter_eq, Hh. reflexivity.
Qed.

(** [omit] leaves every object of the store as it was. *)
Lemma omit_frame (obj : nat) (keys : list string) (w : world) (other : nat) :
  is_Some (heap w !! other) ->
  heap (snd (omit obj keys w)) !! other = heap w !! other.
Proof.
  intros Hlive.
  assert (Hne : other <> fst (omit obj keys w)).
  { intros ->. rewrite omit_fresh in Hlive. now destruct Hlive. }
  unfold omit in *. simpl in *.
  rewrite fold_alter_other by exact Hne.
  now apply lookup_insert_ne.
Qed.

(** The object [omit] returns holds the properties of its argument without
    the omitted keys. *)
Lemma omit_table (obj : nat) (keys : list string) (w : world) :
  tableOf (snd (omit obj keys w)) (fst (omit obj keys w))
  = fold_left (fun t key => deleteProp key t) keys (tableOf w obj).
Proof.
  unfold tableOf at 1. unfold omit. simpl.
  erewrite fold_alter_result; [reflexivity |].
  apply lookup_insert_eq.
Qed.

Lemma deleteProp_lookup_eq (key : string) (props : props_t) :
  lookupProp key (deleteProp key props) = None.
Proof.
  induction props as [|[k x] props IH]; [reflexivity |].
  simpl. destruct (String.eqb_spec key k) as [->|Hne]; [exact IH |].
  simpl. destruct (String.eqb_spec key k); [contradiction | exact IH].
Qed.

Lemma deleteProp_lookup_ne (key k : string) (props : props_t) :
  k <> key -> lookupProp k (deleteProp key props) = lookupProp k props.
Proof.
  intros Hne. induction props as [|[k' x] props IH]; [reflexivity |].
  simpl. destruct (String.eqb_spec key k') as [->|Hne'].
  - rewrite IH. destruct (String.eqb_spec k k'); [contradiction | reflexivity].
  - simpl. now rewrite IH.
Qed.

Section dispatch.
Context {R T : Type}.
Variable form : UseFormReturn T.
Variable discriminantKey : string.
Variable handlers : gmap string (SubmitHandler R).

Let dispatch := createDiscriminatedSubmitHandler R form discriminantKey handlers.

Lemma dispatch_found (values : nat) (w : world) (handler : SubmitHandler R) :
  handlers !! ToString (readProp w values discriminantKey) = Some handler ->
  dispatch values w
  = (Returned (fst (handler (fst (omit values [discriminantKey] w))
                            (snd (omit values [discriminantKey] w)))),
     snd (handler (fst (omit values [discriminantKey] w))
                  (snd (omit values [discriminantKey] w)))).
Proof.
  intros H. unfold dispatch, createDiscriminatedSubmitHandler. cbv zeta.
  unfold SubmitHandler in *. rewrite H. destruct (omit values [discriminantKey] w) as [payload w'].
  simpl. now destruct (handler payload w').
Qed.

Lemma dispatch_missing (values : nat) (w : world) :
  handlers !! ToString (readProp w values discriminantKey) = None ->
  dispatch values w
  = (Thrown ("No handler found for discriminant value: "
             +:+ ToString (readProp w values discriminantKey)), w).
Proof.
  intros H. unfold dispatch, createDiscriminatedSubmitHandler. cbv zeta.
  unfold SubmitHandler in *. now rewrite H.
Qed.
End dispatch.

(** ** Routing *)

(** C2.  When the handler table has a handler for the discriminant value of
    the snapshot, the dispatch function calls that handler on a new object
    that holds the fields of the snapshot without the discriminant field,
    every other field as it is, and returns what the handler returns.  With
    a table of probes the call log grows by exactly one entry, that of the
    handler registered for the value. *)
Theorem dispatch_routes_to_handler
    {R T : Type} (form : UseFormReturn T) (discriminantKey : string)
    (handlers : gmap string (SubmitHandler R)) (values : nat) (w : world)
    (handler : SubmitHandler R)
    (Hregistered :
       handlers !! ToString (readProp w values discriminantKey) = Some handler) :
  let payload := fst (omit values [discriminantKey] w) in
  let w' := snd (omit values [discriminantKey] w) in
  let dispatch := createDiscriminatedSubmitHandler R form discriminantKey handlers in
  dispatch values w
  = (Returned (fst (handler payload w')), snd (handler payload w'))
  /\ tableOf w' payload = deleteProp discriminantKey (tableOf w values)
  /\ lookupProp discriminantKey (tableOf w' payload) = None
  /\ (forall k, k <> discriminantKey ->
        lookupProp k (tableOf w' payload) = lookupProp k (tableOf w values))
  /\ ((forall k h, handlers !! k = Some h -> exists r, h = probe R k r) ->
      calls (snd (dispatch values w))
      = calls w ++ [(ToString (readProp w values discriminantKey), payload)]).
Proof.
  cbv zeta.
  pose proof (omit_table values [discriminantKey] w) as Htable.
  cbn [fold_left] in Htable.
  split; [now apply dispatch_found |].
  split; [exact Htable |].
  split; [rewrite Htable; apply deleteProp_lookup_eq |].
  split; [intros k Hk; rewrite Htable; now apply deleteProp_lookup_ne |].
  intros Hprobes.
  rewrite (dispatch_found form discriminantKey handlers values w handler Hregistered).
  destruct (Hprobes _ _ Hregistered) as [r ->]. reflexivity.
Qed.

Lemma dispatch_routes_to_handler_witness :
  handlersAB !! ToString (readProp snapshotWorld 7 "kind")
  = Some (probe string "b" "h2")
  /\ fst (createDiscriminatedSubmitHandler string (formOf stateB) "kind"
            handlersAB 7 snapshotWorld) = Returned "h2"
  /\ tableOf (snd (omit 7 ["kind"] snapshotWorld))
             (fst (omit 7 ["kind"] snapshotWorld))
     = [("value", VNumber 5)].
Proof.
  assert (H : handlersAB !! ToString (readProp snapshotWorld 7 "kind")
              = Some (probe string "b" "h2")) by reflexivity.
  pose proof (dispatch_routes_to_handler (formOf stateB) "kind" handlersAB 7
                snapshotWorld _ H) as (Hd & Ht & _).
  split; [exact H |]. split.
  - rewrite Hd. reflexivity.
  - rewrite Ht. reflexivity.
Defined.

(** ** The snapshot is left alone *)

(** C7.  [omit] returns a new object and writes to no object of the store;
    so the store a handler is called with holds the snapshot as it was,
    the store after a thrown error is the store before, and, with handlers
    that do not write to the snapshot themselves, the snapshot holds the
    same fields after the dispatch as before. *)
Theorem dispatch_leaves_snapshot
    {R T : Type} (form : UseFormReturn T) (discriminantKey : string)
    (handlers : gmap string (SubmitHandler R)) (values : nat) (w : world)
    (Hlive : is_Some (heap w !! values))
    (Hhandlers :
       forall k handler, handlers !! k = Some handler ->
       forall payload w0,
         heap (snd (handler payload w0)) !! values = heap w0 !! values) :
  let payload := fst (omit values [discriminantKey] w) in
  let w' := snd (omit values [discriminantKey] w) in
  let dispatch := createDiscriminatedSubmitHandler R form discriminantKey handlers in
  payload <> values
  /\ tableOf w' payload = deleteProp discriminantKey (tableOf w values)
  /\ (forall obj, is_Some (heap w !! obj) -> heap w' !! obj = heap w !! obj)
  /\ (handlers !! ToString (readProp w values discriminantKey) = None ->
      snd (dispatch values w) = w)
  /\ tableOf (snd (dispatch values w)) values = tableOf w values.
Proof.
  cbv zeta. split; [|split; [|split; [|split]]].
  - intros E. pose proof (omit_fresh values [discriminantKey] w) as Hfresh.
    rewrite E in Hfresh. rewrite Hfresh in Hlive. now destruct Hlive.
  - exact (omit_table values [discriminantKey] w).
  - intros obj. apply omit_frame.
  - intros Hnone.
    now rewrite (dispatch_missing form discriminantKey handlers values w Hnone).
  - unfold tableOf.
    destruct (handlers !! ToString (readProp w values discriminantKey))
      as [handler|] eqn:E.
    + rewrite (dispatch_found form discriminantKey handlers values w handler E).
      cbn [snd]. rewrite (Hhandlers _ _ E). now rewrite omit_frame.
    + now rewrite (dispatch_missing form discriminantKey handlers values w E).
Qed.

Lemma probes_keep_heap (k : string) (handler : SubmitHandler string) :
  handlersAB !! k = Some handler ->
  forall payload w0, heap (snd (handler payload w0)) !! 7%nat = heap w0 !! 7%nat.
Proof.
  unfold handlersAB. intros H payload w0.
  destruct (decide (k = "a")) as [->|Ha].
  - rewrite lookup_insert_eq in H. inversion H; subst. reflexivity.
  - rewrite lookup_insert_ne in H by congruence.
    destruct (decide (k = "b")) as [->|Hb].
    + rewrite lookup_insert_eq in H. inversion H; subst. reflexivity.
    + rewrite lookup_insert_ne in H by congruence.
      rewrite lookup_empty in H. discriminate H.
Qed.

Lemma dispatch_leaves_snapshot_witness :
  is_Some (heap snapshotWorld !! 7%nat)
  /\ tableOf (snd (createDiscriminatedSubmitHandler string (formOf stateB) "kind"
                     handlersAB 7 snapshotWorld)) 7
     = [("kind", VString "b"); ("value", VNumber 5)].
Proof.
  assert (Hlive : is_Some (heap snapshotWorld !! 7%nat)) by (now eexists).
  split; [exact Hlive |].
  pose proof (dispatch_leaves_snapshot (formOf stateB) "kind" handlersAB 7
                snapshotWorld Hlive probes_keep_heap) as (_ & _ & _ & _ & H).
  rewrite H. reflexivity.
Defined.

(** ** The form argument *)

(** C10.  The form handle given to [createDiscriminatedSubmitHandler] has no
    part in what the returned function does: with the same key and the
    same handlers, two handles give functions with the same outcome, the
    same handler call and the same error on every snapshot and store. *)
Theorem form_argument_unused
    {R T1 T2 : Type} (form1 : UseFormReturn T1) (form2 : UseFormReturn T2)
    (discriminantKey : string) (handlers : gmap string (SubmitHandler R))
    (values : nat) (w : world) :
  createDiscriminatedSubmitHandler R form1 discriminantKey handlers values w
  = createDiscriminatedSubmitHandler R form2 discriminantKey handlers values w.
Proof. reflexivity. Qed.

End DispatcherFacts.

(** * Further properties of the matcher *)

Module MatcherExtras.

Import Spec Samples Matcher Facts MatcherFacts.

(** X1.  For a pattern written as a nested object literal, [get] reads
    back, under each flattened key, the value the flattening paired with
    that key: the expected value the matcher compares with is the leaf of
    the pattern. *)
Theorem get_reads_flattened_value (pattern : value) (key : string) (v : value)
    (Hplain : plainPattern pattern = true)
    (Hpair : In (key, v) (flattenObject pattern)) :
  get pattern key = v.
Proof. now apply get_flattenObject. Qed.

Lemma get_reads_flattened_value_witness :
  plainPattern withArray = true
  /\ In ("tags.1", VString "y") (flattenObject withArray)
  /\ get withArray "tags.1" = VString "y".
Proof.
  assert (Hin : In ("tags.1", VString "y") (flattenObject withArray))
    by (right; now left).
  split; [reflexivity |]. split; [exact Hin |].
  exact (get_reads_flattened_value withArray "tags.1" (VString "y") eq_refl Hin).
Defined.

(** X2.  The pattern of the documentation,
    [{'profile.features': ['advanced', 'priority']}], matches no form that
    holds a first feature: the flattened key [profile.features.0] is not a
    path [get] can follow in the pattern, so the expected value is
    [undefined]. *)
Theorem documented_array_pattern_never_matches
    {T : Type} (form : UseFormReturn T)
    (Hheld : getFieldValue (control (untyped form)) "profile.features.0"
             <> VUndefined) :
  get featuresPattern "profile.features.0" = VUndefined
  /\ useFormTypeguard form featuresPattern = false.
Proof.
  split; [reflexivity |].
  apply (mismatch_at_key form featuresPattern "profile.features.0");
    [now left |].
  change (get featuresPattern "profile.features.0") with VUndefined.
  destruct (getFieldValue (control (untyped form)) "profile.features.0");
    try reflexivity. contradiction.
Qed.

Lemma documented_array_pattern_never_matches_witness :
  getFieldValue (control (untyped (formOf featuresState))) "profile.features.0"
  = VString "advanced"
  /\ useFormTypeguard (formOf featuresState) featuresPattern = false.
Proof.
  split; [reflexivity |].
  exact (proj2 (documented_array_pattern_never_matches (formOf featuresState)
                  ltac:(discriminate))).
Defined.

(** X3.  The memo is keyed on the JSON text of the pattern: an evaluation
    for a pattern with the same text as the pattern before keeps the
    cached paths and the subscription, also when the two patterns flatten
    to different paths, as [{nickname: undefined}] and [{}] do. *)
Theorem same_json_text_keeps_paths
    {T : Type} (form form' : UseFormReturn T) (p1 p2 : value)
    (Htext : JSON.stringify p1 = JSON.stringify p2) :
  let m1 := evaluate form p1 None in
  let m2 := evaluate form' p2 (Some m1) in
  names m2 = discriminantKeysOf p1 /\ subscribeCalls m2 = 1%nat.
Proof.
  cbv zeta.
  assert (Hsame : evaluate form' p2 (Some (evaluate form p1 None))
                  = evaluate form p1 None).
  { eapply evaluate_same_deps; [reflexivity |].
    unfold memoDeps. rewrite <- Htext. apply memoDeps_equal. }
  rewrite Hsame. split; reflexivity.
Qed.

Lemma same_json_text_keeps_paths_witness :
  JSON.stringify nicknameUnset = JSON.stringify empty
  /\ discriminantKeysOf empty = []
  /\ names (evaluate (formOf stateA) empty
              (Some (evaluate (formOf stateA) nicknameUnset None)))
     = ["nickname"].
Proof.
  split; [reflexivity |]. split; [reflexivity |].
  exact (proj1 (same_json_text_keeps_paths (formOf stateA) (formOf stateA)
                  nicknameUnset empty eq_refl)).
Defined.

End MatcherExtras.

(** * Further properties of the matcher and the dispatcher *)

Module FurtherFacts.

Import Spec Samples Further Matcher Dispatcher Facts MatcherFacts DispatcherFacts.

(** ** Patterns without paths *)

(** X4.  A pattern whose flattening is empty, such as [{}] or
    [{tags: []}], matches every form, and no reported change makes the
    matcher compute again. *)
Theorem pattern_without_paths_matches_all
    {T : Type} (form form' : UseFormReturn T) (pattern : value)
    (changed : string)
    (Hnone : discriminantKeysOf pattern = []) :
  useFormTypeguard form pattern = true
  /\ names (evaluate form pattern None) = []
  /\ notify changed form' pattern (evaluate form pattern None)
     = evaluate form pattern None.
Proof.
  assert (Hnames : names (evaluate form pattern None) = []) by exact Hnone.
  split; [|split; [exact Hnames |]].
  - rewrite useFormTypeguard_keys, Hnone. reflexivity.
  - unfold notify. rewrite Hnames. reflexivity.
Qed.

Lemma pattern_without_paths_matches_all_witness :
  discriminantKeysOf tagsEmpty = []
  /\ getFieldValue (control (untyped (formOf twoTags))) "tags.0" = VString "x"
  /\ useFormTypeguard (formOf twoTags) tagsEmpty = true.
Proof.
  split; [reflexivity |]. split; [reflexivity |].
  exact (proj1 (pattern_without_paths_matches_all (formOf twoTags)
                  (formOf twoTags) tagsEmpty "tags" eq_refl)).
Defined.

(** ** The matcher reads the named paths only *)

Lemma forallb_agree {A : Type} (f g : A -> bool) (l : list A) :
  (forall x, In x l -> f x = g x) -> forallb f l = forallb g l.
Proof.
  induction l as [|x l IH]; intros H; [reflexivity |].
  simpl. rewrite (H x) by now left.
  rewrite IH; [reflexivity |]. intros y Hy. apply H. now right.
Qed.

(** X5.  Two forms that hold the same values at the flattened paths of a
    pattern get the same answer, whatever else they hold. *)
Theorem matcher_reads_named_paths_only
    {T T' : Type} (form : UseFormReturn T) (form' : UseFormReturn T')
    (pattern : value)
    (Hagree : forall key, In key (discriminantKeysOf pattern) ->
                getFieldValue (control (untyped form)) key
                = getFieldValue (control (untyped form')) key) :
  useFormTypeguard form pattern = useFormTypeguard form' pattern.
Proof.
  rewrite !useFormTypeguard_keys. apply forallb_agree.
  intros key Hkey. now rewrite (Hagree key Hkey).
Qed.

Lemma matcher_reads_named_paths_only_witness :
  getFieldValue (control (untyped (formOf stateA))) "value" = VString "x"
  /\ getFieldValue (control (untyped (formOf stateA'))) "value" = VString "y"
  /\ useFormTypeguard (formOf stateA) kindA = useFormTypeguard (formOf stateA') kindA.
Proof.
  split; [reflexivity |]. split; [reflexivity |].
  apply (matcher_reads_named_paths_only (formOf stateA) (formOf stateA') kindA).
  intros key [<-|[]]. reflexivity.
Defined.

(** X10.  The list of paths the matcher subscribes to holds no path twice,
    also for a pattern in which two leaves have the same dotted path. *)
Theorem subscribed_paths_distinct (pattern : value) :
  List.NoDup (discriminantKeysOf pattern)
  /\ discriminantKeysOf colliding = ["a.b"].
Proof.
  split; [|reflexivity]. apply flattenObjectImpl_NoDup.
Qed.

(** ** Matching, leaf by leaf *)

(** A plain pattern matches exactly when every leaf reached in it is
    strictly equal to the form's value at the dotted path of the leaf. *)
Lemma plain_match_iff {T : Type} (form : UseFormReturn T) (pattern : value) :
  plainPattern pattern = true ->
  useFormTypeguard form pattern = true
  <-> (forall path v,
          reaches pattern path v ->
          strictEquals (getFieldValue (control (untyped form)) (joinPath "" path)) v
          = true).
Proof.
  intros Hplain. rewrite useFormTypeguard_keys. unfold discriminantKeysOf.
  rewrite (forallb_keys _ (get pattern) (flattenObject pattern))
    by (intros key v Hin; now apply get_flattenObject).
  rewrite forallb_forall. split.
  - intros Hall path v Hreach.
    exact (Hall _ (flattenObjectImpl_exact _ _ _ Hreach Hplain "")).
  - intros Hall [key v] Hin.
    destruct (flattenObjectImpl_sound _ _ _ _ Hin) as (path & Hreach & ->).
    now apply Hall.
Qed.

Lemma reaches_same_props (o1 o2 : value) (path : list string) (v : value) :
  (forall kv, In kv (ownProps o1) -> In kv (ownProps o2)) ->
  reaches o1 path v -> reaches o2 path v.
Proof.
  intros Hsame Hreach. destruct Hreach as [o key v Hown Hd|o key child path v Hown Hd Hr].
  - apply reaches_leaf; [now apply Hsame | exact Hd].
  - apply reaches_step with child; [now apply Hsame | exact Hd | exact Hr].
Qed.

Lemma reaches_app (r r1 r2 : nat) (ps qs : props_t) (path : list string) (v : value) :
  reaches (VObject r (ps ++ qs)) path v
  <-> reaches (VObject r1 ps) path v \/ reaches (VObject r2 qs) path v.
Proof.
  split.
  - intros Hreach.
    assert (Hin : forall kv, In kv (ownProps (VObject r (ps ++ qs))) ->
                    In kv ps \/ In kv qs)
      by (intros kv; simpl; apply in_app_or).
    inversion Hreach as [o key v' Hown Hd|o key child path' v' Hown Hd Hr]; subst;
      destruct (Hin _ Hown) as [H|H].
    + left. now apply reaches_leaf.
    + right. now apply reaches_leaf.
    + left. now apply reaches_step with child.
    + right. now apply reaches_step with child.
  - intros [H|H]; eapply reaches_same_props; try exact H;
      intros kv Hkv; simpl in *; apply in_or_app; tauto.
Qed.

Lemma distinctKeys_app (a b : list string) :
  distinctKeys (a ++ b) = true ->
  distinctKeys a = true /\ distinctKeys b = true.
Proof.
  induction a as [|k a IH]; simpl; intros H; [now split |].
  apply andb_true_iff in H as [Hk Hrest].
  destruct (IH Hrest) as [Ha Hb]. split; [|exact Hb].
  apply andb_true_iff. split; [|exact Ha].
  apply negb_true_iff in Hk. rewrite existsb_app in Hk.
  apply orb_false_iff in Hk as [Hk _]. now rewrite Hk.
Qed.

Lemma plainPattern_object (r : nat) (props : props_t) :
  plainPattern (VObject r props) = true
  <-> distinctKeys (map fst props) = true
      /\ Forall (fun kv => segmentKey (fst kv) = true
                           /\ plainPattern (snd kv) = true) props.
Proof.
  simpl. rewrite andb_true_iff.
  assert (Heach :
    (fix each (rest : props_t) : bool :=
       match rest with
       | [] => true
       | (key, x) :: rest' => segmentKey key && plainPattern x && each rest'
       end) props = true
    <-> Forall (fun kv => segmentKey (fst kv) = true
                          /\ plainPattern (snd kv) = true) props).
  { induction props as [|[k x] props IH]; [split; [constructor | reflexivity] |].
    rewrite !andb_true_iff, IH. split.
    - intros [[Hk Hx] Hrest]. now constructor.
    - intros H. inversion H as [|? ? [Hk Hx] Hrest]; subst. auto. }
  now rewrite Heach.
Qed.

Lemma plainPattern_app (r r1 r2 : nat) (ps qs : props_t) :
  plainPattern (VObject r (ps ++ qs)) = true ->
  plainPattern (VObject r1 ps) = true /\ plainPattern (VObject r2 qs) = true.
Proof.
  rewrite !plainPattern_object, map_app. intros [Hd Hall].
  apply distinctKeys_app in Hd as [Hd1 Hd2].
  apply Forall_app in Hall as [H1 H2]. auto.
Qed.

(** X6.  A pattern written as a nested object literal matches exactly when
    its parts do: the properties of the pattern can be split into two
    patterns, and the answer for the whole is the conjunction of the
    answers for the two. *)
Theorem pattern_matches_as_its_parts
    {T : Type} (form : UseFormReturn T) (r r1 r2 : nat) (ps qs : props_t)
    (Hplain : plainPattern (VObject r (ps ++ qs)) = true) :
  useFormTypeguard form (VObject r (ps ++ qs))
  = useFormTypeguard form (VObject r1 ps) && useFormTypeguard form (VObject r2 qs).
Proof.
  destruct (plainPattern_app r r1 r2 ps qs Hplain) as [H1 H2].
  apply eq_iff_eq_true. rewrite andb_true_iff.
  rewrite (plain_match_iff form _ Hplain), (plain_match_iff form _ H1),
    (plain_match_iff form _ H2).
  split.
  - intros H. split; intros path v Hreach; apply H;
      apply (reaches_app r r1 r2); [now left | now right].
  - intros [Hl Hr] path v Hreach.
    apply (reaches_app r r1 r2) in Hreach as [Hreach|Hreach];
      [now apply Hl | now apply Hr].
Qed.

Lemma pattern_matches_as_its_parts_witness :
  plainPattern kindAvalueX = true
  /\ useFormTypeguard (formOf stateA') kindA = true
  /\ useFormTypeguard (formOf stateA') valueX = false
  /\ useFormTypeguard (formOf stateA') kindAvalueX = false.
Proof.
  split; [reflexivity |]. split; [reflexivity |]. split; [reflexivity |].
  exact (pattern_matches_as_its_parts (formOf stateA') 23 20 22
           [("kind", VString "a")] [("value", VString "x")] eq_refl).
Defined.

(** X7.  Two patterns written as nested object literals with the same
    properties, in whatever order, get the same answer from every form. *)
Theorem property_order_is_irrelevant
    {T : Type} (form : UseFormReturn T) (r r' : nat) (ps qs : props_t)
    (Hps : plainPattern (VObject r ps) = true)
    (Hqs : plainPattern (VObject r' qs) = true)
    (Hsame : forall kv, In kv ps <-> In kv qs) :
  useFormTypeguard form (VObject r ps) = useFormTypeguard form (VObject r' qs).
Proof.
  apply eq_iff_eq_true.
  rewrite (plain_match_iff form _ Hps), (plain_match_iff form _ Hqs).
  split; intros H path v Hreach; apply H;
    eapply reaches_same_props; try exact Hreach;
    intros kv Hkv; simpl in *; now apply Hsame.
Qed.

Lemma property_order_is_irrelevant_witness :
  JSON.stringify kindAvalueX <> JSON.stringify valueXkindA
  /\ useFormTypeguard (formOf stateA) kindAvalueX
     = useFormTypeguard (formOf stateA) valueXkindA.
Proof.
  split; [discriminate |].
  apply (property_order_is_irrelevant (formOf stateA) 23 24
           [("kind", VString "a"); ("value", VString "x")]
           [("value", VString "x"); ("kind", VString "a")] eq_refl eq_refl).
  intros kv. simpl. tauto.
Defined.

(** ** What a match tells about the form *)

Lemma strictEquals_primitive (x v : value) :
  isReference v = false -> strictEquals x v = true -> x = v.
Proof.
  destruct v; try discriminate; intros _; destruct x; simpl; try discriminate;
    intros H; try reflexivity.
  - apply Bool.eqb_prop in H. now subst.
  - apply Z.eqb_eq in H. now subst.
  - apply String.eqb_eq in H. now subst.
Qed.

(** X9.  When a pattern written as a nested object literal matches, the
    form holds, at the dotted path of every primitive leaf of the pattern,
    exactly that leaf: the narrowing the guard promises is true of the
    values. *)
Theorem match_gives_the_leaves
    {T : Type} (form : UseFormReturn T) (pattern : value)
    (path : list string) (v : value)
    (Hplain : plainPattern pattern = true)
    (Hmatch : useFormTypeguard form pattern = true)
    (Hleaf : reaches pattern path v)
    (Hprimitive : isReference v = false) :
  getFieldValue (control (untyped form)) (joinPath "" path) = v.
Proof.
  apply (strictEquals_primitive _ _ Hprimitive).
  exact (proj1 (plain_match_iff form pattern Hplain) Hmatch path v Hleaf).
Qed.

Lemma match_gives_the_leaves_witness :
  useFormTypeguard (formOf stateA) nested = false
  /\ useFormTypeguard (formOf nested) nested = true
  /\ getFieldValue (control (untyped (formOf nested))) "a.b" = VNumber 1.
Proof.
  split; [reflexivity |]. split; [reflexivity |].
  apply (match_gives_the_leaves (formOf nested) nested ["a"; "b"] (VNumber 1));
    try reflexivity.
  apply reaches_step with (child := VObject 31 [("b", VNumber 1)]);
    [now left | reflexivity |].
  apply reaches_leaf; [now left | reflexivity].
Defined.

(** ** Patterns that are equal by value *)

Lemma lookupProp_erase (key : string) (props : props_t) :
  lookupProp key (eraseProps props) = option_map erase (lookupProp key props).
Proof.
  induction props as [|[k x] props IH]; [reflexivity |].
  simpl. destruct (String.eqb key k); [reflexivity | exact IH].
Qed.

Lemma getProp_erase (object : value) (key : string) :
  getProp (erase object) key = erase (getProp object key).
Proof.
  unfold getProp. rewrite ownProps_erase, lookupProp_erase.
  destruct (lookupProp key (ownProps object)); [reflexivity |].
  destruct object; try reflexivity.
  simpl. rewrite length_map. now destruct (String.eqb key "length").
Qed.

Lemma isNullish_erase (v : value) : isNullish (erase v) = isNullish v.
Proof. now destruct v. Qed.

Lemma walkPath_erase (current : value) (path : list string) :
  walkPath (erase current) path = erase (walkPath current path).
Proof.
  revert current. induction path as [|key path IH]; intros current; [reflexivity |].
  simpl. rewrite isNullish_erase, getProp_erase, IH.
  destruct (isNullish current); [reflexivity |].
  now destruct (isUnsafeProperty key).
Qed.

(** [get] reads in a pattern without its references what it reads in the
    pattern, without its references. *)
Lemma get_erase (object : value) (path : string) :
  get (erase object) path = erase (get object path).
Proof.
  unfold get. rewrite isNullish_erase, getProp_erase.
  destruct (isNullish object); [reflexivity |].
  destruct (isUnsafeProperty path); [reflexivity |].
  assert (Hdeep : getWithPath (erase object) (toPath path)
                  = erase (getWithPath object (toPath path))).
  { unfold getWithPath. destruct (toPath path); [reflexivity |].
    apply walkPath_erase. }
  destruct (getProp object path); simpl; try reflexivity.
  rewrite Hdeep. now destruct (isDeepKey path).
Qed.

Lemma erase_primitive (a b : value) :
  isReference a = false -> erase a = erase b -> a = b.
Proof.
  destruct a; try discriminate; intros _; destruct b; simpl; congruence.
Qed.

(** X8.  Two patterns that are equal by value (same properties in the same
    order, different objects) get the same answer from every form, as long
    as the values the first holds at its flattened paths are primitives. *)
Theorem value_equal_patterns_same_answer
    {T : Type} (form : UseFormReturn T) (p1 p2 : value)
    (Hequal : erase p1 = erase p2)
    (Hprimitive : forall key, In key (discriminantKeysOf p1) ->
                    isReference (get p1 key) = false) :
  useFormTypeguard form p1 = useFormTypeguard form p2.
Proof.
  rewrite !useFormTypeguard_keys.
  rewrite <- (discriminantKeysOf_erase p2), <- Hequal, discriminantKeysOf_erase.
  apply forallb_agree. intros key Hkey. f_equal.
  apply (erase_primitive _ _ (Hprimitive key Hkey)).
  now rewrite <- !get_erase, Hequal.
Qed.

Lemma value_equal_patterns_same_answer_witness :
  erase kindA = erase kindA'
  /\ strictEquals kindA kindA' = false
  /\ useFormTypeguard (formOf stateA) kindA = useFormTypeguard (formOf stateA) kindA'.
Proof.
  split; [reflexivity |]. split; [reflexivity |].
  apply (value_equal_patterns_same_answer (formOf stateA) kindA kindA' eq_refl).
  intros key [<-|[]]. reflexivity.
Defined.

(** ** Flat patterns with dotted keys *)

Lemma setProp_new (key : string) (v : value) (props : props_t) :
  ~ In key (map fst props) -> setProp key v props = props ++ [(key, v)].
Proof.
  induction props as [|[k x] props IH]; simpl; intros H; [reflexivity |].
  destruct (String.eqb_spec key k) as [->|Hne]; [tauto |].
  rewrite IH by tauto. reflexivity.
Qed.

Lemma definedPrimitive_leaf (v : value) :
  definedPrimitive v = true -> descends v = false /\ v <> VUndefined.
Proof.
  destruct v; simpl; try discriminate; intros _;
    (split; [reflexivity | discriminate]).
Qed.

Lemma flatProps_flatten (rest result : props_t) :
  List.NoDup (map fst (result ++ rest)) ->
  Forall (fun kv => definedPrimitive (snd kv) = true) rest ->
  fold_left (flattenStep "") rest result = result ++ rest.
Proof.
  revert result. induction rest as [|[k x] rest IH]; intros result Hnd Hall.
  - now rewrite app_nil_r.
  - inversion Hall as [|? ? Hx Hrest]; subst. simpl in Hx.
    destruct (definedPrimitive_leaf _ Hx) as [Hd _].
    simpl. unfold flattenStep at 2. simpl.
    rewrite (visit_leaf _ _ _ _ Hd), setProp_new.
    + rewrite IH; [now rewrite <- app_assoc | | exact Hrest].
      now rewrite <- app_assoc.
    + rewrite map_app in Hnd. simpl in Hnd.
      apply List.NoDup_remove_2 in Hnd. intros Hin. apply Hnd.
      apply in_or_app. now left.
Qed.

(** X11.  A flat pattern, whose keys may be dotted paths such as
    [subscription.isActive] and whose values are primitives other than
    [undefined], matches exactly when, for each of its properties, the
    form's value at the key taken as a dotted path is strictly equal to
    the property's value. *)
Theorem flat_pattern_matches_by_path
    {T : Type} (form : UseFormReturn T) (r : nat) (props : props_t)
    (Hflat : flatProps props = true) :
  flattenObject (VObject r props) = props
  /\ useFormTypeguard form (VObject r props)
     = forallb (fun kv =>
                  strictEquals (getFieldValue (control (untyped form)) (fst kv))
                               (snd kv)) props.
Proof.
  unfold flatProps in Hflat. apply andb_true_iff in Hflat as [Hdist Hall].
  apply distinctKeys_NoDup in Hdist. rewrite forallb_forall in Hall.
  assert (Hflatten : flattenObject (VObject r props) = props).
  { unfold flattenObject. rewrite flattenObjectImpl_unfold. simpl.
    rewrite flatProps_flatten; [reflexivity | exact Hdist |].
    apply List.Forall_forall. intros kv Hkv.
    specialize (Hall kv Hkv). now apply andb_true_iff in Hall as [_ Hall]. }
  split; [exact Hflatten |].
  rewrite useFormTypeguard_keys. unfold discriminantKeysOf. rewrite Hflatten.
  apply forallb_keys. intros key v Hin.
  specialize (Hall _ Hin). simpl in Hall.
  apply andb_true_iff in Hall as [Hsafe Hprim]. apply negb_true_iff in Hsafe.
  destruct (definedPrimitive_leaf _ Hprim) as [_ Hdef].
  unfold get. simpl. rewrite Hsafe.
  rewrite (getProp_own (VObject r props) key v) by now apply lookupProp_In.
  destruct v; try reflexivity. contradiction.
Qed.

Lemma flat_pattern_matches_by_path_witness :
  flatProps [("userType", VString "premium"); ("subscription.isActive", VBool true)]
  = true
  /\ useFormTypeguard (formOf premiumState) premiumPattern = true
  /\ useFormTypeguard (formOf stateA) premiumPattern = false.
Proof.
  split; [reflexivity |].
  pose proof (flat_pattern_matches_by_path (formOf premiumState) 74
                [("userType", VString "premium");
                 ("subscription.isActive", VBool true)] eq_refl) as [_ H1].
  pose proof (flat_pattern_matches_by_path (formOf stateA) 74
                [("userType", VString "premium");
                 ("subscription.isActive", VBool true)] eq_refl) as [_ H2].
  split; [exact (eq_trans H1 eq_refl) | exact (eq_trans H2 eq_refl)].
Defined.

(** ** Snapshots without a discriminant field *)

Lemma deleteProp_absent (key : string) (props : props_t) :
  lookupProp key props = None -> deleteProp key props = props.
Proof.
  induction props as [|[k x] props IH]; [reflexivity |].
  simpl. destruct (String.eqb key k); [discriminate |].
  intros H. now rewrite IH.
Qed.

(** X12.  For a snapshot that has no property named by the discriminant
    key (the key is read as one property name, also when it is a dotted
    path), the discriminant value is [undefined]: the dispatch function
    calls the handler registered under [undefined], if there is one, on a
    copy that holds every field of the snapshot, and otherwise throws
    [No handler found for discriminant value: undefined]. *)
Theorem dispatch_without_discriminant
    {R T : Type} (form : UseFormReturn T) (discriminantKey : string)
    (handlers : gmap string (SubmitHandler R)) (values : nat) (w : world)
    (Habsent : lookupProp discriminantKey (tableOf w values) = None) :
  let payload := fst (omit values [discriminantKey] w) in
  let w' := snd (omit values [discriminantKey] w) in
  let dispatch := createDiscriminatedSubmitHandler R form discriminantKey handlers in
  readProp w values discriminantKey = VUndefined
  /\ (handlers !! "undefined" = None ->
      dispatch values w
      = (Thrown "No handler found for discriminant value: undefined", w))
  /\ (forall handler, handlers !! "undefined" = Some handler ->
        dispatch values w
        = (Returned (fst (handler payload w')), snd (handler payload w'))
        /\ tableOf w' payload = tableOf w values).
Proof.
  cbv zeta.
  assert (Hread : readProp w values discriminantKey = VUndefined).
  { unfold readProp, getProp. simpl. now rewrite Habsent. }
  split; [exact Hread |]. split.
  - intros Hnone.
    rewrite (dispatch_missing form discriminantKey handlers values w)
      by (now rewrite Hread).
    now rewrite Hread.
  - intros handler Hsome. split.
    + apply dispatch_found. now rewrite Hread.
    + pose proof (omit_table values [discriminantKey] w) as Htable.
      cbn [fold_left] in Htable. rewrite Htable. now apply deleteProp_absent.
Qed.

Lemma dispatch_without_discriminant_witness :
  lookupProp "kind" (tableOf noKindWorld 7) = None
  /\ createDiscriminatedSubmitHandler string (formOf stateA) "kind" handlersA 7
       noKindWorld
     = (Thrown "No handler found for discriminant value: undefined", noKindWorld).
Proof.
  split; [reflexivity |].
  destruct (dispatch_without_discriminant (formOf stateA) "kind" handlersA 7
              noKindWorld eq_refl) as (_ & H & _).
  apply H. reflexivity.
Defined.

(** ** Discriminant values with the same text *)

(** X13.  The handler is looked up under the text of the discriminant
    value, so two snapshots whose discriminant values have the same text,
    such as the number [5] and the string ['5'], are dispatched alike,
    whatever their other fields: both throw the same error, or both go to
    the same handler. *)
Theorem same_text_same_handler
    {R T : Type} (form : UseFormReturn T) (discriminantKey : string)
    (handlers : gmap string (SubmitHandler R))
    (values1 : nat) (w1 : world) (values2 : nat) (w2 : world)
    (Htext : ToString (readProp w1 values1 discriminantKey)
             = ToString (readProp w2 values2 discriminantKey)) :
  let dispatch := createDiscriminatedSubmitHandler R form discriminantKey handlers in
  (forall message,
      fst (dispatch values1 w1) = Thrown message
      <-> fst (dispatch values2 w2) = Thrown message)
  /\ (forall handler,
        handlers !! ToString (readProp w1 values1 discriminantKey) = Some handler ->
        dispatch values2 w2
        = (Returned (fst (handler (fst (omit values2 [discriminantKey] w2))
                                  (snd (omit values2 [discriminantKey] w2)))),
           snd (handler (fst (omit values2 [discriminantKey] w2))
                        (snd (omit values2 [discriminantKey] w2))))).
Proof.
  cbv zeta. split.
  - intros message.
    destruct (handlers !! ToString (readProp w1 values1 discriminantKey))
      as [handler|] eqn:E.
    + rewrite (dispatch_found form discriminantKey handlers values1 w1 handler E).
      rewrite Htext in E.
      rewrite (dispatch_found form discriminantKey handlers values2 w2 handler E).
      split; discriminate.
    + rewrite (dispatch_missing form discriminantKey handlers values1 w1 E).
      rewrite Htext in E.
      rewrite (dispatch_missing form discriminantKey handlers values2 w2 E).
      simpl. now rewrite Htext.
  - intros handler Hsome. rewrite Htext in Hsome. now apply dispatch_found.
Qed.

Lemma same_text_same_handler_witness :
  readProp numberKindWorld 7 "kind" = VNumber 5
  /\ readProp stringKindWorld 7 "kind" = VString "5"
  /\ fst (createDiscriminatedSubmitHandler string (formOf stateA) "kind"
            handlers5 7 stringKindWorld) = Returned "h5".
Proof.
  split; [reflexivity |]. split; [reflexivity |].
  destruct (same_text_same_handler (formOf stateA) "kind" handlers5
              7 numberKindWorld 7 stringKindWorld eq_refl) as [_ H].
  rewrite (H (probe string "5" "h5") eq_refl). reflexivity.
Defined.

(** ** Dispatching a snapshot again *)

Lemma omit_result_live (obj : nat) (keys : list string) (w : world) :
  is_Some (heap (snd (omit obj keys w)) !! fst (omit obj keys w)).
Proof.
  unfold omit. simpl.
  erewrite fold_alter_result; [now eexists | apply lookup_insert_eq].
Qed.

(** X14.  Every dispatch hands its handler an object of its own: when a
    snapshot is dispatched a second time, after a handler that left the
    snapshot as it was, the same handler is called on a new object,
    different from the snapshot and from the first payload, that holds
    the same fields as the first payload. *)
Theorem dispatch_again_makes_new_payload
    {R T : Type} (form : UseFormReturn T) (discriminantKey : string)
    (handlers : gmap string (SubmitHandler R)) (values : nat) (w : world)
    (handler : SubmitHandler R)
    (Hregistered :
       handlers !! ToString (readProp w values discriminantKey) = Some handler)
    (Hlive : is_Some (heap w !! values))
    (Hsnapshot : forall payload w0,
        heap (snd (handler payload w0)) !! values = heap w0 !! values)
    (Hkeeps : forall payload w0,
        is_Some (heap w0 !! payload) ->
        is_Some (heap (snd (handler payload w0)) !! payload)) :
  let dispatch := createDiscriminatedSubmitHandler R form discriminantKey handlers in
  let payload1 := fst (omit values [discriminantKey] w) in
  let w1 := snd (dispatch values w) in
  let payload2 := fst (omit values [discriminantKey] w1) in
  let w2 := snd (omit values [discriminantKey] w1) in
  payload2 <> payload1
  /\ payload2 <> values
  /\ dispatch values w1
     = (Returned (fst (handler payload2 w2)), snd (handler payload2 w2))
  /\ tableOf w2 payload2 = deleteProp discriminantKey (tableOf w values).
Proof.
  cbv zeta.
  rewrite (dispatch_found form discriminantKey handlers values w handler Hregistered).
  cbn [snd].
  set (w' := snd (omit values [discriminantKey] w)).
  set (payload1 := fst (omit values [discriminantKey] w)).
  set (w1 := snd (handler payload1 w')).
  assert (Hvalues : heap w1 !! values = heap w !! values).
  { unfold w1. rewrite Hsnapshot. unfold w'. now apply omit_frame. }
  assert (Hp1 : is_Some (heap w1 !! payload1)).
  { unfold w1. apply Hkeeps. apply omit_result_live. }
  pose proof (omit_fresh values [discriminantKey] w1) as Hfresh.
  assert (Htable : tableOf w1 values = tableOf w values)
    by (unfold tableOf; f_equal; exact Hvalues).
  split; [|split; [|split]].
  - intros E. rewrite E in Hfresh. rewrite Hfresh in Hp1. now destruct Hp1.
  - intros E. rewrite E, Hvalues in Hfresh. rewrite Hfresh in Hlive.
    now destruct Hlive.
  - apply dispatch_found. unfold readProp. now rewrite Htable.
  - pose proof (omit_table values [discriminantKey] w1) as H.
    cbn [fold_left] in H. now rewrite H, Htable.
Qed.

Lemma probes_keep_objects (k : string) (result : string) (obj payload : nat)
    (w0 : world) :
  heap (snd (probe string k result payload w0)) !! obj = heap w0 !! obj.
Proof. reflexivity. Qed.

Lemma dispatch_again_makes_new_payload_witness :
  handlersAB !! ToString (readProp snapshotWorld 7 "kind")
  = Some (probe string "b" "h2")
  /\ calls (snd (createDiscriminatedSubmitHandler string (formOf stateB) "kind"
                   handlersAB 7
                   (snd (createDiscriminatedSubmitHandler string (formOf stateB)
                           "kind" handlersAB 7 snapshotWorld))))
     = [("b", fst (omit 7 ["kind"] snapshotWorld));
        ("b", fst (omit 7 ["kind"]
                     (snd (createDiscriminatedSubmitHandler string (formOf stateB)
                             "kind" handlersAB 7 snapshotWorld))))]
  /\ fst (omit 7 ["kind"]
            (snd (createDiscriminatedSubmitHandler string (formOf stateB)
                    "kind" handlersAB 7 snapshotWorld)))
     <> fst (omit 7 ["kind"] snapshotWorld).
Proof.
  split; [reflexivity |]. split; [reflexivity |].
  refine (proj1 (dispatch_again_makes_new_payload (formOf stateB) "kind"
                   handlersAB 7 snapshotWorld (probe string "b" "h2")
                   eq_refl _ _ _)).
  - now eexists.
  - intros payload w0. apply probes_keep_objects.
  - intros payload w0 H. now rewrite probes_keep_objects.
Defined.

(** ** A pattern with another text *)

Lemma stringify_text (v : value) :
  JSON.stringify v = VUndefined \/ exists s, JSON.stringify v = VString s.
Proof. destruct v; [now left | right; eexists; reflexivity ..]. Qed.

Lemma stringify_differs (p1 p2 : value) :
  JSON.stringify p1 <> JSON.stringify p2 ->
  React.areHookInputsEqual (memoDeps p2) (memoDeps p1) = false.
Proof.
  unfold memoDeps. intros Hne. cbn [React.areHookInputsEqual].
  rewrite andb_true_r. unfold React.Object_is.
  destruct (stringify_text p1) as [E1|[s1 E1]], (stringify_text p2) as [E2|[s2 E2]];
    rewrite E1, E2 in *; try reflexivity; [congruence |].
  cbn [strictEquals]. apply String.eqb_neq. congruence.
Qed.


Lemma notify_fired {T : Type} (changed : string) (form : UseFormReturn T)
    (pattern : value) (m : matcher) :
  fires (names m) changed = true ->
  notify changed form pattern m
  = {| memo := memo m;
       names := names m;
       subscribeCalls := subscribeCalls m;
       computeCalls := S (computeCalls m);
       isMatching :=
         useWatch (compute pattern (names m)) (control (untyped form)) (names m) |}.
Proof. intros H. unfold notify. now rewrite H. Qed.

(** X15.  When the matcher is evaluated for a pattern whose JSON text
    differs from that of the pattern before, the paths are flattened anew
    and the matcher subscribes once more, to the paths of the new pattern;
    it goes on showing the answer it showed, that of the old pattern,
    until the container reports a change to a subscribed path, and then
    shows the answer of the new pattern. *)
Theorem new_text_rederives_subscription
    {T : Type} (form form' form'' : UseFormReturn T) (p1 p2 : value)
    (changed : string)
    (Htext : JSON.stringify p1 <> JSON.stringify p2)
    (Hfires : fires (discriminantKeysOf p2) changed = true) :
  let m1 := evaluate form p1 None in
  let m2 := evaluate form' p2 (Some m1) in
  names m2 = discriminantKeysOf p2
  /\ subscribeCalls m2 = 2%nat
  /\ isMatching m2 = useFormTypeguard form p1
  /\ isMatching (notify changed form'' p2 m2) = useFormTypeguard form'' p2.
Proof.
  cbv zeta.
  assert (E : evaluate form' p2 (Some (evaluate form p1 None))
              = {| memo := Some (discriminantKeysOf p2, memoDeps p2);
                   names := discriminantKeysOf p2;
                   subscribeCalls := 2;
                   computeCalls := 1;
                   isMatching := useFormTypeguard form p1 |}).
  { unfold evaluate at 1. unfold React.useMemo.
    change (memo (evaluate form p1 None))
      with (Some (discriminantKeysOf p1, memoDeps p1)).
    cbv beta iota zeta. rewrite (stringify_differs _ _ Htext). reflexivity. }
  rewrite E. repeat split.
  rewrite notify_fired by exact Hfires. reflexivity.
Qed.

Lemma new_text_rederives_subscription_witness :
  JSON.stringify kindA <> JSON.stringify kindB
  /\ useFormTypeguard (formOf stateB) kindB = true
  /\ isMatching (evaluate (formOf stateB) kindB
                   (Some (evaluate (formOf stateB) kindA None))) = false
  /\ isMatching (notify "kind" (formOf stateB) kindB
                   (evaluate (formOf stateB) kindB
                      (Some (evaluate (formOf stateB) kindA None)))) = true.
Proof.
  assert (H : JSON.stringify kindA <> JSON.stringify kindB) by discriminate.
  split; [exact H |]. split; [reflexivity |].
  destruct (new_text_rederives_subscription (formOf stateB) (formOf stateB)
              (formOf stateB) kindA kindB "kind" H eq_refl) as (_ & _ & H3 & H4).
  split; [exact H3 | exact H4].
Defined.

End FurtherFacts.

(** * The matcher, claim by claim *)

Module ClaimFacts.

Import Spec Samples Further Matcher Facts MatcherFacts FurtherFacts.

(** ** Patterns that get reads back *)








(** ** Patterns equal by value in another order *)


(** ** The subscribed paths and the changes that reach them *)





(** ** Mismatched and absent fields, leaf by leaf *)




End ClaimFacts.
